(** * Fortune (lib/fortune.js): a shallow embedding and its properties

    The file follows [lib/fortune.js] top to bottom: the JavaScript values
    the facade inspects, the express application it configures, the
    adapter interface it drives, the promise callbacks it queues behind
    [adapter.awaitConnection()], and then one definition per method of
    [Fortune.prototype]. *)

From stdpp Require Import base option list strings gmap pretty.

Set Warnings "-register-all".
Open Scope string_scope.

(** ** JavaScript values *)

Module JS.

(** A function value is opaque: the facade only stores functions and asks
    for their [typeof]; [fn_source] is what [ToString] prints. *)
Record fn := Fn { fn_id : nat; fn_source : string }.

(** Numbers are the integer-valued ones. Objects are plain objects given
    by their own properties (an array is the object with keys "0", "1",
    ... and "length"); the methods of [Object.prototype] are not
    shadowed by own properties. *)
Inductive value :=
| VUndefined
| VNull
| VBool (b : bool)
| VNumber (n : Z)
| VString (s : string)
| VFunction (f : fn)
| VObject (props : gmap string value).

(** What a [throw] carries: a [TypeError] raised by the runtime, or any
    value thrown by the adapter or the router. *)
Inductive exn :=
| TypeError (msg : string)
| Thrown (v : value).

Inductive outcome (A : Type) :=
| Ok (a : A)
| Throw (e : exn).
Arguments Ok {A} a.
Arguments Throw {A} e.

Definition typeof (v : value) : string :=
  match v with
  | VUndefined => "undefined"
  | VNull => "object"
  | VBool _ => "boolean"
  | VNumber _ => "number"
  | VString _ => "string"
  | VFunction _ => "function"
  | VObject _ => "object"
  end.

(** [ToBoolean]. *)
Definition truthy (v : value) : bool :=
  match v with
  | VUndefined | VNull => false
  | VBool b => b
  | VNumber n => negb (n =? 0)%Z
  | VString s => negb (String.eqb s "")
  | VFunction _ | VObject _ => true
  end.

(** [ToString], as used by [+] with a string operand. *)
Definition to_string (v : value) : string :=
  match v with
  | VUndefined => "undefined"
  | VNull => "null"
  | VBool true => "true"
  | VBool false => "false"
  | VNumber n => pretty n
  | VString s => s
  | VFunction f => fn_source f
  | VObject _ => "[object Object]"
  end.

Definition exn_to_string (e : exn) : string :=
  match e with
  | TypeError msg => "TypeError: " ++ msg
  | Thrown v => to_string v
  end.

(** [o.hasOwnProperty(key)]: a [TypeError] on [null] and [undefined],
    which have no properties at all; a primitive or a function has none of
    the keys that the facade asks for. *)
Definition hasOwnProperty (o : value) (key : string) : outcome bool :=
  match o with
  | VObject props => Ok (bool_decide (is_Some (props !! key)))
  | VUndefined => Throw (TypeError "Cannot read property 'hasOwnProperty' of undefined")
  | VNull => Throw (TypeError "Cannot read property 'hasOwnProperty' of null")
  | _ => Ok false
  end.

(** [o[key]] where [o] is known not to be [null] or [undefined]. *)
Definition get (o : value) (key : string) : value :=
  match o with
  | VObject props => default VUndefined (props !! key)
  | _ => VUndefined
  end.

(** [o[key] = v] on an object. *)
Definition set_property (o : value) (key : string) (v : value) : value :=
  match o with
  | VObject props => VObject (<[key := v]> props)
  | _ => o
  end.

(** [delete o[key]]. *)
Definition delete_property (o : value) (key : string) : value :=
  match o with
  | VObject props => VObject (delete key props)
  | _ => o
  end.

(** [a || b]. *)
Definition or_else (a b : value) : value := if truthy a then a else b.

Definition space : Ascii.ascii := Ascii.ascii_of_nat 32.

(** [s.split(' ')]: every space ends a token, so two spaces in a row and
    a leading or trailing space give empty tokens, and the empty string
    gives one empty token. *)
Fixpoint split_space (s : string) : list string :=
  match s with
  | EmptyString => [""]
  | String c rest =>
      if Ascii.eqb c space then "" :: split_space rest
      else match split_space rest with
           | tok :: toks => String c tok :: toks
           | [] => [String c ""]
           end
  end.

(** [hay] has [needle] as a substring. *)
Fixpoint includes (needle hay : string) : bool :=
  String.prefix needle hay ||
  match hay with
  | EmptyString => false
  | String _ rest => includes needle rest
  end.

(** An array literal of strings. *)
Definition array_of (l : list string) : value :=
  VObject (<["length" := VNumber (Z.of_nat (length l))]>
             (list_to_map (imap (λ i s, (pretty i, VString s)) l))).

(** The double quote, for the console messages. *)
Definition quoted (s : string) : string :=
  String (Ascii.ascii_of_nat 34) (s ++ String (Ascii.ascii_of_nat 34) "").

(** [name.split(' ')]: only a string has the method. *)
Definition split (name : value) : outcome (list string) :=
  match name with
  | VString s => Ok (split_space s)
  | VUndefined => Throw (TypeError "Cannot call method 'split' of undefined")
  | VNull => Throw (TypeError "Cannot call method 'split' of null")
  | _ => Throw (TypeError "Object has no method 'split'")
  end.

(** [_.clone(v)]: a shallow copy has the own properties of [v]. *)
Definition clone (v : value) : value := v.

(** Code that may throw. *)
Definition outcome_bind {A B} (f : A → outcome B) (c : outcome A) : outcome B :=
  match c with
  | Ok a => f a
  | Throw e => Throw e
  end.

#[global] Instance outcome_ret : MRet outcome := λ A a, Ok a.
#[global] Instance outcome_mbind : MBind outcome := λ A B f c, outcome_bind f c.

(** Code that may throw and that mutates a state [S]: what was written
    before the [throw] stays written. *)
Definition M (S A : Type) : Type := S → S * outcome A.

Section M.
Context {S : Type}.

Definition M_bind {A B} (f : A → M S B) (c : M S A) : M S B :=
  λ st, match c st with
        | (st', Ok a) => f a st'
        | (st', Throw e) => (st', Throw e)
        end.

#[global] Instance M_ret : MRet (M S) := λ A a st, (st, Ok a).
#[global] Instance M_mbind : MBind (M S) := λ A B f c, M_bind f c.

Definition throw {A} (e : exn) : M S A := λ st, (st, Throw e).
Definition lift {A} (c : outcome A) : M S A := λ st, (st, c).
Definition modify (f : S → S) : M S () := λ st, (f st, Ok ()).
Definition gets {A} (f : S → A) : M S A := λ st, (st, Ok (f st)).

(** [try { body } catch (error) { handler(error) }]. *)
Definition try_catch {A} (body : M S A) (handler : exn → M S A) : M S A :=
  λ st, match body st with
        | (st', Ok a) => (st', Ok a)
        | (st', Throw e) => handler e st'
        end.

(** [xs.forEach(f)] over an array that [f] does not change. *)
Fixpoint forEach {A} (f : A → M S ()) (xs : list A) : M S () :=
  match xs with
  | [] => mret ()
  | x :: xs' => f x ≫= λ _, forEach f xs'
  end.
End M.

End JS.
Export JS.

(** ** The express application

    Of [express()] the facade uses [use], [disable], [listen] and the route
    table [routes], which maps a lower-case verb to the array of routes
    registered for it. *)

Module Express.

Record route := Route { path : string; callbacks : nat }.

(** The handler returned by [allowCrossDomain], given by the four
    settings it closes over. *)
Record cors_settings := CorsSettings {
  headers : value;
  methods : value;
  origins : value;
  credentials : value
}.

Inductive middleware :=
| AllowCrossDomain (settings : cors_settings)
| BodyParser
| Connect (f : value).

Record app := App {
  stack : list middleware;
  settings : gmap string bool;
  routes : gmap string (list route);
  listening : option value
}.

Definition express : app :=
  {| stack := []; settings := {["x-powered-by" := true]}; routes := ∅;
     listening := None |}.

Definition use (mw : middleware) (a : app) : app :=
  {| stack := stack a ++ [mw]; settings := settings a; routes := routes a;
     listening := listening a |}.

Definition disable (setting : string) (a : app) : app :=
  {| stack := stack a; settings := <[setting := false]> (settings a);
     routes := routes a; listening := listening a |}.

Definition listen (port : value) (a : app) : app :=
  {| stack := stack a; settings := settings a; routes := routes a;
     listening := Some port |}.

Definition with_routes (rs : gmap string (list route)) (a : app) : app :=
  {| stack := stack a; settings := settings a; routes := rs;
     listening := listening a |}.

End Express.
Export Express.

(** [allowCrossDomain(cors)]: the default Cross-Origin Resource Sharing
    setup. *)
Definition allowCrossDomain (cors : value) : middleware :=
  AllowCrossDomain
    {| headers := or_else (get cors "headers")
                    (array_of ["Accept"; "Content-Type"; "Authorization"; "X-Requested-With"]);
       methods := or_else (get cors "methods")
                    (array_of ["GET"; "PUT"; "POST"; "PATCH"; "DELETE"]);
       origins := or_else (get cors "origins") (VString "*");
       credentials := or_else (get cors "credentials") (VBool true) |}.

(** ** What the facade requires

    [inflect.pluralize] of the [i] package, the [Adapter] class of
    [./adapter] and the [route] function of [./route] are used through
    these signatures. The adapter's promise is given by how it settles. *)

Class Externals := {
  adapter_state : Type;
  (** [inflect.pluralize(name)] *)
  pluralize : string → string;
  (** [new Adapter(options)] *)
  Adapter : value → adapter_state;
  (** [adapter.model(name)]: the model registered under [name], if any *)
  adapter_model : adapter_state → string → value;
  (** [adapter.schema(name, schema, options)] *)
  adapter_schema : string → value → value → M adapter_state value;
  (** [adapter.model(name, schema)]: define the model *)
  adapter_define : string → value → M adapter_state value;
  (** [this._route(name, model)], the function of [./route]: it registers
      the resource's routes on [this.router], given [this.options] *)
  _route : string → value → value → M app ();
  (** [new RegExp(source).test(s)] of the engine, consulted for a source
      that has special characters *)
  regexp_special : string → string → bool
}.

(** How [adapter.awaitConnection()] settles. *)
Inductive connection :=
| Connected
| ConnectionFailed (error : exn).

Inductive console_entry :=
| Warn (message : string)
| Trace (message : string)
| Log (message : string).

(** The two hook tables, [this['_before']] and [this['_after']]. *)
Inductive stage := Before_ | After_.

(** A callback handed to [awaitConnection().then], with the variables it
    closes over. The schema of a [ResourceJob] is the object as the call
    passed it: an object handed to several calls is not modelled as
    shared between their callbacks. *)
Inductive job :=
| ResourceJob (name : string) (schema options : value)
| RemoveRoutesJob (re : string) (methods : list string) (routes : option (list string)).

(** ** The loop of [_removeRoutes] *)

(** [paths.forEach(function(route, index) { if(test(route)) paths.splice(index, 1); })]:
    [forEach] visits the indices [0 .. len - 1] for the length [len] the
    array had at the start, in order, and skips an index that the array
    no longer has; [splice(index, 1)] removes the element at [index] and
    moves the later ones down by one. [remaining] counts the indices
    still to visit. *)
Fixpoint forEach_splice (test : route → bool) (remaining index : nat)
    (paths : list route) : list route :=
  match remaining with
  | 0 => paths
  | S remaining' =>
      match paths !! index with
      | Some r =>
          forEach_splice test remaining' (S index)
            (if test r then delete index paths else paths)
      | None => forEach_splice test remaining' (S index) paths
      end
  end.

(** The characters that have a meaning of their own in the source of a
    regular expression. *)
Definition special_chars : list Ascii.ascii :=
  String.list_ascii_of_string "\^$.|?*+()[]{}".

(** The source has none of them: every character stands for itself. *)
Fixpoint ordinary (source : string) : bool :=
  match source with
  | EmptyString => true
  | String c rest => negb (existsb (Ascii.eqb c) special_chars) && ordinary rest
  end.

Section Fortune.
Context `{!Externals}.

(** The Fortune object, with the console and the promise callbacks that
    are waiting for the connection. [_schema], [_before] and [_after]
    live on the prototype; one instance is modelled. *)
Record fortune := Fortune {
  options : value;
  router : app;
  adapter : adapter_state;
  _schema : gmap string value;
  _before : gmap string value;
  _after : gmap string value;
  _resource : string;
  console : list console_entry;
  pending : list job;
  unhandled : list exn
}.

Definition set_router (f : app → app) (st : fortune) : fortune :=
  Fortune (options st) (f (router st)) (adapter st) (_schema st) (_before st)
    (_after st) (_resource st) (console st) (pending st) (unhandled st).
Definition set_adapter (a : adapter_state) (st : fortune) : fortune :=
  Fortune (options st) (router st) a (_schema st) (_before st)
    (_after st) (_resource st) (console st) (pending st) (unhandled st).
Definition set_schema (f : gmap string value → gmap string value) (st : fortune) : fortune :=
  Fortune (options st) (router st) (adapter st) (f (_schema st)) (_before st)
    (_after st) (_resource st) (console st) (pending st) (unhandled st).
Definition set_before (f : gmap string value → gmap string value) (st : fortune) : fortune :=
  Fortune (options st) (router st) (adapter st) (_schema st) (f (_before st))
    (_after st) (_resource st) (console st) (pending st) (unhandled st).
Definition set_after (f : gmap string value → gmap string value) (st : fortune) : fortune :=
  Fortune (options st) (router st) (adapter st) (_schema st) (_before st)
    (f (_after st)) (_resource st) (console st) (pending st) (unhandled st).
Definition set_resource (name : string) (st : fortune) : fortune :=
  Fortune (options st) (router st) (adapter st) (_schema st) (_before st)
    (_after st) name (console st) (pending st) (unhandled st).
Definition print (e : console_entry) (st : fortune) : fortune :=
  Fortune (options st) (router st) (adapter st) (_schema st) (_before st)
    (_after st) (_resource st) (console st ++ [e]) (pending st) (unhandled st).
Definition set_pending (js : list job) (st : fortune) : fortune :=
  Fortune (options st) (router st) (adapter st) (_schema st) (_before st)
    (_after st) (_resource st) (console st) js (unhandled st).
Definition reject (e : exn) (st : fortune) : fortune :=
  Fortune (options st) (router st) (adapter st) (_schema st) (_before st)
    (_after st) (_resource st) (console st) (pending st) (unhandled st ++ [e]).

(** [promise.then(callback)]: the callback waits for the connection. *)
Definition then_ (j : job) (st : fortune) : fortune :=
  set_pending (pending st ++ [j]) st.

(** Calls into the adapter and the router, run on [this.adapter] and
    [this.router]. *)
Definition on_adapter {A} (c : M adapter_state A) : M fortune A :=
  λ st, let '(a, r) := c (adapter st) in (set_adapter a st, r).
Definition on_router {A} (c : M app A) : M fortune A :=
  λ st, let '(a, r) := c (router st) in (set_router (λ _, a) st, r).

(** [new RegExp(source).test(s)]: a source of ordinary characters matches
    the strings that have it as a substring; any other source is the
    engine's business. *)
Definition RegExp_test (source s : string) : bool :=
  if ordinary source then includes source s else regexp_special source s.

(** [routes ? _.contains(routes, route.path) : re.test(route.path)] *)
Definition route_matches (re : string) (routes : option (list string)) (r : route) : bool :=
  match routes with
  | Some routes => bool_decide (path r ∈ routes)
  | None => RegExp_test re (path r)
  end.

(** [this.options] *)
Definition this_options (st : fortune) : value := options st.

(** *** Default application settings *)

Definition _defaults : list (string * value) :=
  [ ("adapter", VString "nedb");
    ("host", VString "localhost");
    ("port", VNull);
    ("db", VString "fortune");
    ("username", VString "");
    ("password", VString "");
    ("flags", VObject ∅);
    ("baseUrl", VString "");
    ("namespace", VString "");
    ("cors", VBool true);
    ("production", VBool false) ].

(** *** Constructor method *)

(** The [for(var key in this._defaults)] loop. *)
Fixpoint init_options (defaults : list (string * value)) (options : value) : outcome value :=
  match defaults with
  | [] => Ok options
  | (key, dflt) :: defaults' =>
      own ← hasOwnProperty options key;
      init_options defaults'
        (if negb own then set_property options key dflt else options)
  end.

(** [typeof options.cors == 'boolean' || typeof options.cors == 'object' && options.cors] *)
Definition cors_condition (options : value) : bool :=
  String.eqb (typeof (get options "cors")) "boolean"
  || String.eqb (typeof (get options "cors")) "object" && truthy (get options "cors").

Definition _init (options : value) : outcome fortune :=
  let options := if String.eqb (typeof options) "object" then options else VObject ∅ in
  options ← init_options _defaults options;
  let router := express in
  let router :=
    if cors_condition options
    then use (allowCrossDomain (get options "cors")) router
    else router in
  let router := disable "x-powered-by" router in
  let router := use BodyParser router in
  Ok {| options := options; router := router; adapter := Adapter options;
        _schema := ∅; _before := ∅; _after := ∅; _resource := "";
        console := []; pending := []; unhandled := [] |}.

(** *** Resources *)

Definition reserved_warning (reservedKey : string) : console_entry :=
  Warn ("Reserved key " ++ quoted reservedKey ++ " is not allowed.").

Definition already_defined_warning (name : string) : console_entry :=
  Warn ("Warning: resource " ++ quoted name ++ " was already defined.").

Definition load_error_trace (name : string) (error : exn) : console_entry :=
  Trace ("There was an error loading the " ++ quoted name ++ " resource. "
         ++ exn_to_string error).

(** Scrub keys on a schema before passing it off to the adapter. *)
Definition scrub_key (reservedKey : string) (schema : value) : M fortune value :=
  own ← lift (hasOwnProperty schema reservedKey);
  if (own : bool) then
    let schema := delete_property schema reservedKey in
    modify (print (reserved_warning reservedKey));;
    mret schema
  else mret schema.

Definition _scrubSchema (schema : value) : M fortune value :=
  schema ← scrub_key "id" schema;
  schema ← scrub_key "href" schema;
  scrub_key "links" schema.

(** The [try] block of the fulfilment callback of [resource]:
    [schema = adapter.schema(name, schema, options)] and then
    [this._route(name, adapter.model(name, schema))]. *)
Definition load_resource (name : string) (schema options : value) : M fortune () :=
  schema ← on_adapter (adapter_schema name schema options);
  model ← on_adapter (adapter_define name schema);
  this_options ← gets this_options;
  on_router (_route name model this_options).

(** Its [catch] block. *)
Definition load_failed (name : string) (error : exn) : M fortune () :=
  modify (print (load_error_trace name error)).

(** The fulfilment callback of [resource]. *)
Definition resource_connected (name : string) (schema options : value) : M fortune () :=
  schema ← _scrubSchema schema;
  modify (set_schema (<[name := clone schema]>));;
  try_catch (load_resource name schema options) (load_failed name).

(** The rejection callback of [resource]: [function(error) { throw error; }]. *)
Definition resource_failed (error : exn) : M fortune () := throw error.

(** Define a resource and set up routes simultaneously. The result is
    [this]. *)
Definition resource (name : string) (schema options : value) (st : fortune) : fortune :=
  let st := set_resource name st in
  if negb (String.eqb (typeof schema) "object") then st
  else if truthy (adapter_model (adapter st) name) then
    print (already_defined_warning name) st
  else then_ (ResourceJob name schema options) st.

(** *** Transforms *)

Definition stage_table (s : stage) (st : fortune) : gmap string value :=
  match s with Before_ => _before st | After_ => _after st end.

Definition set_stage (s : stage) (key : string) (fn : value) : fortune → fortune :=
  match s with
  | Before_ => set_before (<[key := fn]>)
  | After_ => set_after (<[key := fn]>)
  end.

(** Internal method to add transforms on a resource. *)
Definition _addTransform (name fn : value) (s : stage) : M fortune () :=
  λ st,
    let '(name, fn) :=
      if String.eqb (typeof name) "function"
      then (VString (_resource st), name)
      else (name, fn) in
    if String.eqb (typeof fn) "function" then
      (keys ← lift (split name);
       forEach (λ key, modify (set_stage s key fn)) keys) st
    else (st, Ok ()).

Definition before (name fn : value) : M fortune () := _addTransform name fn Before_.

Definition after (name fn : value) : M fortune () := _addTransform name fn After_.

(** [arguments[i]] *)
Definition argument (arguments : list value) (i : nat) : value :=
  default VUndefined (arguments !! i).

(** Convenience method to define before and after at once. *)
Definition transform (arguments : list value) : M fortune () :=
  λ st,
    let name := argument arguments 0 in
    let before_ := argument arguments 1 in
    let after_ := argument arguments 2 in
    let '(name, before_, after_) :=
      if (length arguments <? 3)%nat
      then (VString (_resource st), name, before_)
      else (name, before_, after_) in
    (before name before_;; after name after_) st.

(** *** Middleware and listening *)

Definition use_ (fn : value) (st : fortune) : fortune :=
  set_router (use (Connect fn)) st.

Definition listen_ (port : value) (st : fortune) : fortune :=
  print (Log ("A fortune is available on port " ++ to_string port ++ "..."))
    (set_router (listen port) st).

(** *** Removing routes *)

(** The body of [(methods || []).forEach(function(verb) { ... })]. *)
Definition remove_verb (re : string) (routes : option (list string)) (verb : string)
    : M app () :=
  λ a,
    match Express.routes a !! verb with
    | None => (a, Throw (TypeError "Cannot call method 'forEach' of undefined"))
    | Some paths =>
        (with_routes
           (<[verb := forEach_splice (route_matches re routes) (length paths) 0 paths]>
              (Express.routes a)) a,
         Ok ())
    end.

(** The fulfilment callback of [_removeRoutes]. *)
Definition removeRoutes_connected (re : string) (methods : list string)
    (routes : option (list string)) : M fortune () :=
  on_router (forEach (remove_verb re routes) methods).

(** Internal method to remove HTTP routes from a resource. *)
Definition _removeRoutes (name : string) (methods : list string)
    (routes : option (list string)) (st : fortune) : fortune :=
  let collection := pluralize name in
  let re := "/" ++ collection in
  then_ (RemoveRoutesJob re methods routes) st.

(** [if(typeof name != 'string') name = this._resource;] *)
Definition resource_name (name : value) (st : fortune) : string :=
  match name with
  | VString s => s
  | _ => _resource st
  end.

(** Mark a resource as read-only. *)
Definition readOnly (name : value) (st : fortune) : fortune :=
  let name := resource_name name st in
  _removeRoutes name ["post"; "put"; "patch"; "delete"] None st.

(** The path of the collection index in [noIndex]. *)
Definition index_path (name : string) (st : fortune) : string :=
  to_string (get (options st) "namespace") ++ "/" ++ pluralize name.

(** Mark a resource as not having an index. *)
Definition noIndex (name : value) (st : fortune) : fortune :=
  let name := resource_name name st in
  let index := index_path name st in
  _removeRoutes name ["get"] (Some [index]) st.

(** *** Settling the connection *)

(** What a queued callback does once the connection has settled. A
    callback registered without a rejection handler passes the failure
    on. *)
Definition run_job (c : connection) (j : job) : M fortune () :=
  match j, c with
  | ResourceJob name schema options, Connected => resource_connected name schema options
  | ResourceJob _ _ _, ConnectionFailed error => resource_failed error
  | RemoveRoutesJob re methods routes, Connected => removeRoutes_connected re methods routes
  | RemoveRoutesJob _ _ _, ConnectionFailed error => throw error
  end.

(** One callback: when it throws, the promise returned by [then] is
    rejected with what was thrown, and nothing handles that promise. *)
Definition run_callback (c : connection) (st : fortune) (j : job) : fortune :=
  match run_job c j st with
  | (st', Ok _) => st'
  | (st', Throw e) => reject e st'
  end.

(** The connection settles as [c]: the waiting callbacks run in the
    order in which they were registered. *)
Definition settle (c : connection) (st : fortune) : fortune :=
  foldl (run_callback c) (set_pending [] st) (pending st).

End Fortune.

(** ** An in-memory adapter and router

    A small implementation of the interface, on which the facade can be
    run: the adapter keeps its models in a table, and [_route] registers
    the collection and item routes of a resource. [throwing] makes
    [adapter.schema] throw. The names used with it have no special
    character, so that [regexp_special] is never consulted. *)

Module Memory.

Definition collection_path (options : value) (name : string) : string :=
  to_string (get options "namespace") ++ "/" ++ name ++ "s".

Definition add_route (verb path : string) : M app () :=
  λ a, (with_routes
          (<[verb := (default [] (routes a !! verb) ++ [Route path 0])%list]> (routes a)) a,
        Ok ()).

Definition route_resource (name : string) (model options : value) : M app () :=
  let collection := collection_path options name in
  let individual := collection ++ "/:id" in
  add_route "get" collection;;
  add_route "get" individual;;
  add_route "post" collection;;
  add_route "post" individual;;
  add_route "put" individual;;
  add_route "patch" individual;;
  add_route "delete" individual.

Definition externals (throwing : bool) : Externals :=
  {| adapter_state := gmap string value;
     pluralize := λ name, name ++ "s";
     Adapter := λ _, ∅;
     adapter_model := λ a name, default VUndefined (a !! name);
     adapter_schema := λ name schema options a,
       if throwing then (a, Throw (Thrown (VString "bad schema")))
       else (a, Ok schema);
     adapter_define := λ name schema a, (<[name := schema]> a, Ok schema);
     _route := route_resource;
     regexp_special := λ _ _, false |}.

(** The instance that [fortune()] builds over the in-memory adapter. *)
Definition fresh (throwing : bool) : @fortune (externals throwing) :=
  @Fortune (externals throwing)
    (VObject (list_to_map _defaults))
    (use BodyParser (disable "x-powered-by" (use (allowCrossDomain (VBool true)) express)))
    ∅ ∅ ∅ ∅ "" [] [] [].

Definition String_ : value := VFunction (Fn 0 "function String() { [native code] }").

Definition user_schema : value := VObject {["name" := String_]}.

(** [fortune().resource('user', {name: String})], once connected. *)
Definition users : @fortune (externals false) :=
  settle Connected (resource "user" user_schema VUndefined (fresh false)).

End Memory.

(** ** The CORS handler

    The function that [allowCrossDomain] returns, run on one request. It
    closes over the four settings, and assigns to [origins]. *)

Module Cors.

(** Of the request: [req.method] and [req.get('Origin')]. *)
Record request := Request { req_method : string; req_origin : option string }.

(** What the handler does to the response and to the chain of
    middleware, in order. *)
Inductive effect :=
| Header (name : string) (v : value)
| Send (status : Z)
| Next.

(** The variables of the closure, and what was done so far. *)
Record exchange := Exchange { closure : cors_settings; done_ : list effect }.

Definition act (e : effect) : M exchange () :=
  modify (λ x, Exchange (closure x) (done_ x ++ [e])).

Definition set_origins (v : value) : M exchange () :=
  modify (λ x, Exchange
                 {| headers := headers (closure x); methods := methods (closure x);
                    origins := v; credentials := credentials (closure x) |}
                 (done_ x)).

(** [req.get('Origin')] *)
Definition origin_header (req : request) : value :=
  match req_origin req with
  | Some s => VString s
  | None => VUndefined
  end.

(** The elements of an array, by its ["length"] and index keys. *)
Definition array_items (v : value) : option (list value) :=
  match v with
  | VObject props =>
      match props !! "length" with
      | Some (VNumber n) =>
          Some ((λ i : nat, default VUndefined (props !! pretty i)) <$> seq 0 (Z.to_nat n))
      | _ => None
      end
  | _ => None
  end.

(** [===] against a string. *)
Definition is_string (s : string) (v : value) : bool :=
  match v with
  | VString t => String.eqb s t
  | _ => false
  end.

(** [Array.prototype.indexOf], from index [i] on. *)
Fixpoint array_indexOf (s : string) (items : list value) (i : Z) : Z :=
  match items with
  | [] => -1
  | v :: items' => if is_string s v then i else array_indexOf s items' (i + 1)
  end.

(** [String.prototype.indexOf], from index [i] on. *)
Fixpoint string_indexOf (needle hay : string) (i : Z) : Z :=
  if String.prefix needle hay then i
  else match hay with
       | EmptyString => -1
       | String _ rest => string_indexOf needle rest (i + 1)
       end.

(** [o.indexOf(s)]: strings and arrays have the method. *)
Definition indexOf (o : value) (s : string) : outcome value :=
  match o with
  | VString hay => Ok (VNumber (string_indexOf s hay 0))
  | _ =>
      match array_items o with
      | Some items => Ok (VNumber (array_indexOf s items 0))
      | None => Throw (TypeError "Object has no method 'indexOf'")
      end
  end.

(** An element in [join]: [undefined] and [null] give the empty string. *)
Definition item_string (v : value) : string :=
  match v with
  | VUndefined | VNull => ""
  | _ => to_string v
  end.

(** [o.join(sep)]: only arrays have the method. *)
Definition join (o : value) (sep : string) : outcome string :=
  match array_items o with
  | Some items => Ok (String.concat sep (item_string <$> items))
  | None => Throw (TypeError "Object has no method 'join'")
  end.

(** [v.toString()] of a value that is not [null] or [undefined]. *)
Definition toString (v : value) : outcome string :=
  match array_items v with
  | Some _ => join v ","
  | None => Ok (to_string v)
  end.

(** [origins !== '*'] *)
Definition not_wildcard (origins : value) : bool := negb (is_string "*" origins).

(** [function(req, res, next) { ... }] *)
Definition handler (req : request) : M exchange () :=
  if negb (truthy (origin_header req)) then act Next
  else
    let origin := to_string (origin_header req) in
    allowed ← gets (λ x, origins (closure x));
    (if not_wildcard allowed then
       index ← lift (indexOf allowed origin);
       if truthy index then set_origins (VString origin) else act Next
     else mret ());;
    allowed ← gets (λ x, origins (closure x));
    act (Header "Access-Control-Allow-Origin" allowed);;
    joined ← gets (λ x, join (headers (closure x)) ", ") ≫= lift;
    act (Header "Access-Control-Allow-Headers" (VString joined));;
    joined ← gets (λ x, join (methods (closure x)) ", ") ≫= lift;
    act (Header "Access-Control-Allow-Methods" (VString joined));;
    text ← gets (λ x, toString (credentials (closure x))) ≫= lift;
    act (Header "Access-Control-Allow-Credentials" (VString text));;
    if String.eqb (req_method req) "OPTIONS" then act (Send 200) else act Next.

(** The settings that [allowCrossDomain(cors)] closes over. *)
Definition settings_of (mw : middleware) : option cors_settings :=
  match mw with
  | AllowCrossDomain s => Some s
  | _ => None
  end.

(** One request through the handler of [allowCrossDomain(cors)]. *)
Definition serve (s : cors_settings) (req : request) : exchange * outcome () :=
  handler req (Exchange s []).

End Cors.

(** ** Some configurations and tables to run the code on *)

Module Sample.

(** What [allowCrossDomain(true)] closes over. *)
Definition default_cors : cors_settings :=
  {| headers := array_of ["Accept"; "Content-Type"; "Authorization"; "X-Requested-With"];
     methods := array_of ["GET"; "PUT"; "POST"; "PATCH"; "DELETE"];
     origins := VString "*";
     credentials := VBool true |}.

(** [{origins: ['http://a.example', 'http://b.example']}] *)
Definition listed_cors : cors_settings :=
  {| headers := headers default_cors;
     methods := methods default_cors;
     origins := array_of ["http://a.example"; "http://b.example"];
     credentials := VBool true |}.

(** [{headers: 'Accept'}] *)
Definition string_headers_cors : cors_settings :=
  {| headers := VString "Accept";
     methods := methods default_cors;
     origins := VString "*";
     credentials := VBool true |}.

Definition get_from (origin : string) : Cors.request := Cors.Request "GET" (Some origin).

(** A router with one route for each verb of a [users] collection. *)
Definition single_routes : gmap string (list route) :=
  {[ "get" := [Route "/users" 0];
     "post" := [Route "/users" 1];
     "put" := [Route "/users/:id" 2];
     "patch" := [Route "/users/:id" 3];
     "delete" := [Route "/users/:id" 4] ]}.

Definition single : @fortune (Memory.externals false) :=
  set_router (with_routes single_routes) (Memory.fresh false).


Definition a_hook : fn := Fn 1 "function (resolve) { resolve(this); }".

End Sample.

(** ** Dispatching the hooks *)

Module Dispatch.

(** What a request handler does, in order. *)
Inductive event :=
| RunBefore (name : string)
| Persist (name : string)
| ReadDatabase (name : string)
| RunAfter (name : string)
| Respond (ok : bool).

(** How a hook settles its promise: [resolve(resource)] or [reject()]. *)
Inductive settled :=
| Resolved (resource : value)
| Rejected.

Section Handlers.
Context `{!Externals}.

(** Calling a hook on a resource with the request, and saving a
    resource and reading it back. *)
Variable invoke : value → value → value → settled.
Variable save : string → value → value.

(** Modelled from the spec: the hook registry "keyed by resource name"
    is consulted for the resource of the request, and a resource
    without a hook passes through. The handlers live in [./route],
    which is missing from the sources. *)
Definition dispatch (table : gmap string value) (ran : string → event)
    (name : string) (resource request : value) : list event * settled :=
  match table !! name with
  | Some hook => ([ran name], invoke hook resource request)
  | None => ([], Resolved resource)
  end.

(** Modelled from the spec: the handler of a request that persists a
    resource, missing with [./route]. "Before-hooks run prior to
    persistence, after-hooks run prior to response": the before-hook
    runs "before a resource is saved in the database", the after-hook
    "after a resource is read from the database", and a hook that
    rejects ends the request. *)
Definition handle_write (st : fortune) (name : string) (resource request : value)
    : list event :=
  match dispatch (_before st) RunBefore name resource request with
  | (before_events, Rejected) => before_events ++ [Respond false]
  | (before_events, Resolved resource) =>
      let stored := save name resource in
      match dispatch (_after st) RunAfter name stored request with
      | (after_events, Rejected) =>
          before_events ++ [Persist name; ReadDatabase name]
            ++ after_events ++ [Respond false]
      | (after_events, Resolved _) =>
          before_events ++ [Persist name; ReadDatabase name]
            ++ after_events ++ [Respond true]
      end
  end%list.

End Handlers.

End Dispatch.

(** ** Vocabulary of the statements *)

(** Whether the constructor installed the CORS middleware. *)
Definition cors_installed `{!Externals} (st : fortune) : Prop :=
  ∃ settings, AllowCrossDomain settings ∈ stack (router st).

(** What the [forEach] with [splice] amounts to: a route that matches is
    removed, and then the route that followed it is stepped over. *)
Fixpoint sweep (test : route → bool) (paths : list route) : list route :=
  match paths with
  | [] => []
  | r :: rest =>
      if test r then
        match rest with
        | [] => []
        | r' :: rest' => r' :: sweep test rest'
        end
      else r :: sweep test rest
  end.

(** Two routes in a row match. *)
Fixpoint adjacent_matches (test : route → bool) (paths : list route) : bool :=
  match paths with
  | r :: rest =>
      match rest with
      | r' :: _ => test r && test r' || adjacent_matches test rest
      | [] => false
      end
  | [] => false
  end.

(** The schema without the reserved keys. *)
Definition scrubbed (props : gmap string value) : gmap string value :=
  delete "links" (delete "href" (delete "id" props)).

(** The warnings of [_scrubSchema], in the order of the loop. *)
Definition scrub_warnings (props : gmap string value) : list console_entry :=
  ((if props !! "id" is Some _ then [reserved_warning "id"] else [])
   ++ (if props !! "href" is Some _ then [reserved_warning "href"] else [])
   ++ (if props !! "links" is Some _ then [reserved_warning "links"] else []))%list.

(** Several lines on the console. *)
Definition print_all `{!Externals} (entries : list console_entry) (st : fortune) : fortune :=
  foldl (λ st e, print e st) st entries.

(** The name has a space in it. *)
Fixpoint has_space (s : string) : bool :=
  match s with
  | EmptyString => false
  | String c rest => Ascii.eqb c space || has_space rest
  end.

(** The hook tables after the loop over the keys. *)
Definition register_keys `{!Externals} (s : stage) (fn : value) (keys : list string)
    (st : fortune) : fortune :=
  foldl (λ st key, set_stage s key fn st) st keys.

(** The code neither reads nor writes [this._resource]. *)
Definition ignores_resource `{!Externals} {A} (m : M fortune A) : Prop :=
  ∀ name st, m (set_resource name st) = (set_resource name (m st).1, (m st).2).

(** [e1] comes before position [i] of the trace. *)
Definition earlier (t : list Dispatch.event) (e1 : Dispatch.event) (i : nat) : Prop :=
  ∃ j, (j < i)%nat ∧ t !! j = Some e1.

(** A response comes after position [i] of the trace. *)
Definition answered_later (t : list Dispatch.event) (i : nat) : Prop :=
  ∃ k ok, (i < k)%nat ∧ t !! k = Some (Dispatch.Respond ok).

(** ** Running monadic code *)

Lemma bind_run {S A B} (c : M S A) (f : A → M S B) (st : S) :
  (c ≫= f) st
  = match c st with
    | (st', Ok a) => f a st'
    | (st', Throw e) => (st', Throw e)
    end.
Proof. reflexivity. Qed.

Lemma forEach_cons {S A} (f : A → M S ()) (x : A) (xs : list A) (st : S) :
  forEach f (x :: xs) st
  = match f x st with
    | (st', Ok _) => forEach f xs st'
    | (st', Throw e) => (st', Throw e)
    end.
Proof. reflexivity. Qed.

(** ** The constructor: options and CORS *)

Example fresh_is_constructed throwing :
  @_init (Memory.externals throwing) VUndefined = Ok (Memory.fresh throwing).
Proof. destruct throwing; reflexivity. Qed.

Section Init.
Context `{!Externals}.

Lemma init_options_object defaults props :
  init_options defaults (VObject props)
  = Ok (VObject (props ∪ list_to_map defaults)).
Proof.
  revert props. induction defaults as [|[key dflt] defaults IH]; intros props.
  - cbn [init_options list_to_map foldr]. by rewrite map_union_empty.
  - cbn [init_options hasOwnProperty mbind outcome_mbind outcome_bind].
    destruct (props !! key) as [v|] eqn:Hkey.
    + rewrite bool_decide_true by eauto. cbn [negb]. rewrite IH.
      do 2 f_equal. apply map_eq. intros k.
      rewrite !lookup_union. cbn [list_to_map foldr uncurry].
      destruct (decide (key = k)) as [->|Hne].
      * rewrite Hkey, lookup_insert_eq. by destruct (list_to_map defaults !! k).
      * cbn [fst snd]. by rewrite lookup_insert_ne.
    + rewrite bool_decide_false by (intros [? ?]; congruence).
      cbn [negb set_property]. rewrite IH.
      do 2 f_equal. cbn [list_to_map foldr uncurry].
      by rewrite <- insert_union_l, insert_union_r.
Qed.

(** The state the constructor builds from the merged options. *)
Lemma init_object props :
  ∃ st, _init (VObject props) = Ok st
        ∧ options st = VObject (props ∪ list_to_map _defaults).
Proof.
  unfold _init. change (String.eqb (typeof (VObject props)) "object") with true.
  cbv iota.
  rewrite init_options_object. eexists. split; reflexivity.
Qed.

(** X1. Own properties of the argument win, defaults fill the rest, and
    nothing else appears. *)
Lemma init_merges_options props :
  ∃ st merged,
    _init (VObject props) = Ok st ∧ options st = VObject merged
    ∧ (∀ key v, props !! key = Some v → merged !! key = Some v)
    ∧ (∀ key, props !! key = None →
              merged !! key = (list_to_map _defaults : gmap string value) !! key).
Proof.
  destruct (init_object props) as (st & Hst & Hopt).
  exists st, (props ∪ list_to_map _defaults). repeat split; try done.
  - intros key v Hkey. by apply lookup_union_Some_l.
  - intros key Hkey. by rewrite lookup_union_r.
Qed.

(** X2. An argument whose [typeof] is not ['object'] is replaced by [{}]. *)
Lemma init_not_typeof_object v :
  typeof v ≠ "object" →
  ∃ st, _init v = Ok st ∧ options st = VObject (list_to_map _defaults).
Proof.
  intros Hty. unfold _init.
  destruct (String.eqb (typeof v) "object") eqn:E.
  { apply String.eqb_eq in E. done. }
  rewrite init_options_object. eexists. split; [reflexivity|].
  cbn [options]. by rewrite map_empty_union.
Qed.

(** C1 (the defect). [typeof null] is ['object'], so [null] is taken for
    the options object, and the first [options.hasOwnProperty(key)]
    throws a [TypeError]: no Fortune object is built and no option gets
    its default. *)
Theorem init_null_throws :
  _init VNull = Throw (TypeError "Cannot read property 'hasOwnProperty' of null").
Proof. reflexivity. Qed.

Lemma init_stack v st :
  _init v = Ok st →
  stack (router st)
  = ((if cors_condition (options st)
      then [allowCrossDomain (get (options st) "cors")] else []) ++ [BodyParser])%list.
Proof.
  unfold _init. intros Hinit.
  destruct (init_options _ _) as [opts|e]; [|done].
  cbn [mbind outcome_mbind outcome_bind] in Hinit.
  injection Hinit as <-. cbn [router options].
  by destruct (cors_condition opts).
Qed.

(** X4. The middleware is installed exactly when [cors] is a boolean, either
    one, or an object other than [null]. *)
Lemma init_cors_installed v st :
  _init v = Ok st →
  cors_installed st ↔
    (∃ b, get (options st) "cors" = VBool b)
    ∨ (∃ props, get (options st) "cors" = VObject props).
Proof.
  intros Hinit. unfold cors_installed. rewrite (init_stack _ _ Hinit).
  unfold cors_condition.
  destruct (get (options st) "cors") eqn:Hcors; cbn.
  all: split;
    [ intros [cfg Hin]; repeat (apply elem_of_cons in Hin as [Hin|Hin]; try done);
      try (by apply elem_of_nil in Hin); eauto
    | intros [[? ?]|[? ?]]; try done; eexists; by left ].
Qed.

(** C3 (the defect). With [cors: false] the first disjunct of the test,
    [typeof options.cors == 'boolean'], holds, so the middleware is
    installed all the same, and [allowCrossDomain(false)] falls back on
    every default setting. *)
Theorem init_cors_false_installs :
  ∃ st, _init (VObject {["cors" := VBool false]}) = Ok st
        ∧ get (options st) "cors" = VBool false
        ∧ stack (router st)
          = [AllowCrossDomain
               {| headers := array_of ["Accept"; "Content-Type"; "Authorization";
                                       "X-Requested-With"];
                  methods := array_of ["GET"; "PUT"; "POST"; "PATCH"; "DELETE"];
                  origins := VString "*";
                  credentials := VBool true |};
             BodyParser].
Proof.
  destruct (init_object {["cors" := VBool false]}) as (st & Hst & Hopt).
  exists st. split; [done|].
  assert (get (options st) "cors" = VBool false) as Hcors.
  { rewrite Hopt. cbn [get].
    by rewrite (lookup_union_Some_l _ _ _ (VBool false)) by apply lookup_singleton_eq. }
  split; [done|].
  rewrite (init_stack _ _ Hst). unfold cors_condition. by rewrite Hcors.
Qed.

End Init.

(** ** Removing routes while iterating *)

Lemma forEach_splice_ext (t1 t2 : route → bool) remaining index paths :
  (∀ r, t1 r = t2 r) →
  forEach_splice t1 remaining index paths = forEach_splice t2 remaining index paths.
Proof.
  intros Hext. revert index paths.
  induction remaining as [|n IH]; intros index paths; [done|].
  cbn [forEach_splice]. destruct (paths !! index) as [r|]; [|apply IH].
  rewrite Hext. apply IH.
Qed.

Section Splice.
Variable test : route → bool.

Lemma forEach_splice_past_end remaining index (paths : list route) :
  (length paths ≤ index)%nat →
  forEach_splice test remaining index paths = paths.
Proof.
  revert index. induction remaining as [|n IH]; intros index Hlen; [done|].
  cbn [forEach_splice]. rewrite lookup_ge_None_2 by done. apply IH. lia.
Qed.

Lemma forEach_splice_sweep remaining (pre paths : list route) :
  (length paths ≤ remaining)%nat →
  forEach_splice test remaining (length pre) (pre ++ paths)%list
  = (pre ++ sweep test paths)%list.
Proof.
  revert pre paths. induction remaining as [|n IH]; intros pre paths Hlen.
  - destruct paths; [done | simpl in Hlen; lia].
  - cbn [forEach_splice]. destruct paths as [|r rest].
    + rewrite lookup_ge_None_2 by (rewrite length_app; simpl; lia).
      apply forEach_splice_past_end. rewrite length_app. simpl. lia.
    + rewrite list_lookup_middle by done. cbn [sweep].
      simpl in Hlen. destruct (test r).
      * replace (delete (length pre) (pre ++ r :: rest)%list) with (pre ++ rest)%list.
        2:{ clear. induction pre as [|x pre IHp]; [done|]. simpl. by f_equal. }
        destruct rest as [|r' rest'].
        -- apply forEach_splice_past_end. rewrite length_app. simpl. lia.
        -- replace (S (length pre)) with (length (pre ++ [r'])%list)
             by (rewrite length_app; simpl; lia).
           rewrite (cons_middle r' pre rest'), (assoc_L (++)%list).
           rewrite IH by (simpl in Hlen; lia).
           by rewrite <- (assoc_L (++)%list).
      * replace (S (length pre)) with (length (pre ++ [r])%list)
          by (rewrite length_app; simpl; lia).
        rewrite (cons_middle r pre rest), (assoc_L (++)%list).
        rewrite IH by lia.
        by rewrite <- (assoc_L (++)%list).
Qed.

(** The loop of [_removeRoutes] over one verb's routes. *)
Lemma forEach_splice_all (paths : list route) :
  forEach_splice test (length paths) 0 paths = sweep test paths.
Proof. by apply (forEach_splice_sweep (length paths) [] paths). Qed.

(** A route that does not match is never removed, nor reordered. *)
Lemma sweep_keeps_others (paths : list route) :
  filter (λ r, ¬ test r) (sweep test paths) = filter (λ r, ¬ test r) paths.
Proof.
  remember (length paths) as n eqn:Hn.
  assert (length paths ≤ n)%nat as Hle by lia. clear Hn.
  revert paths Hle. induction n as [|n IH]; intros paths Hle.
  { destruct paths; [done | simpl in Hle; lia]. }
  destruct paths as [|r rest]; [done|]. simpl in Hle. cbn [sweep].
  destruct (test r) eqn:Hr.
  - rewrite (filter_cons_False _ r) by (rewrite Hr; simpl; tauto).
    destruct rest as [|r' rest']; [done|]. simpl in Hle.
    rewrite !filter_cons, IH by lia. done.
  - rewrite !filter_cons, IH by lia. done.
Qed.

(** Unless two routes in a row match, every matching route is removed. *)
Lemma sweep_filter (paths : list route) :
  adjacent_matches test paths = false →
  sweep test paths = filter (λ r, ¬ test r) paths.
Proof.
  remember (length paths) as n eqn:Hn.
  assert (length paths ≤ n)%nat as Hle by lia. clear Hn.
  revert paths Hle. induction n as [|n IH]; intros paths Hle Hadj.
  { destruct paths; [done | simpl in Hle; lia]. }
  destruct paths as [|r rest]; [done|]. simpl in Hle. cbn [sweep].
  destruct (test r) eqn:Hr.
  - rewrite (filter_cons_False _ r) by (rewrite Hr; simpl; tauto).
    destruct rest as [|r' rest']; [done|]. simpl in Hle.
    cbn [adjacent_matches] in Hadj. rewrite Hr in Hadj. cbn [andb] in Hadj.
    destruct (test r') eqn:Hr'; [done|]. cbn [orb] in Hadj.
    rewrite (filter_cons_True _ r') by (rewrite Hr'; simpl; tauto).
    f_equal. apply IH; [lia|].
    destruct rest' as [|r'' rest'']; [done|].
    exact Hadj.
  - rewrite (filter_cons_True _ r) by (rewrite Hr; simpl; tauto).
    f_equal. apply IH; [lia|].
    destruct rest as [|r' rest']; [done|].
    cbn [adjacent_matches] in Hadj. by rewrite Hr in Hadj.
Qed.

End Splice.

(** ** Callbacks and the last defined resource *)

Section Settling.
Context `{!Externals}.

Lemma ignores_bind {A B} (m : M fortune A) (f : A → M fortune B) :
  ignores_resource m → (∀ a, ignores_resource (f a)) → ignores_resource (m ≫= f).
Proof.
  intros Hm Hf name st. rewrite !bind_run, Hm.
  destruct (m st) as [st' [a|e]]; cbn [fst snd]; [apply Hf | done].
Qed.

Lemma ignores_try_catch {A} (body : M fortune A) (handler : exn → M fortune A) :
  ignores_resource body → (∀ e, ignores_resource (handler e)) →
  ignores_resource (try_catch body handler).
Proof.
  intros Hb Hh name st. unfold try_catch. rewrite Hb.
  destruct (body st) as [st' [a|e]]; cbn [fst snd]; [done | apply Hh].
Qed.

Lemma ignores_modify (f : fortune → fortune) :
  (∀ name st, f (set_resource name st) = set_resource name (f st)) →
  ignores_resource (modify f).
Proof. intros Hf name st. unfold modify. by rewrite Hf. Qed.

Lemma ignores_on_adapter {A} (c : M adapter_state A) : ignores_resource (on_adapter c).
Proof.
  intros name st. unfold on_adapter.
  replace (adapter (set_resource name st)) with (adapter st) by by destruct st.
  destruct (c (adapter st)) as [a r]. by destruct st.
Qed.

Lemma ignores_on_router {A} (c : M app A) : ignores_resource (on_router c).
Proof.
  intros name st. unfold on_router.
  replace (router (set_resource name st)) with (router st) by by destruct st.
  destruct (c (router st)) as [a r]. by destruct st.
Qed.

Lemma ignores_scrub_key key schema : ignores_resource (scrub_key key schema).
Proof.
  unfold scrub_key. apply ignores_bind; [done|]. intros [|]; [|done].
  apply ignores_bind; [|done]. apply ignores_modify. by intros ? [].
Qed.

Lemma ignores_load_resource name schema opts :
  ignores_resource (load_resource name schema opts).
Proof.
  unfold load_resource.
  apply ignores_bind; [apply ignores_on_adapter|]. intros schema'.
  apply ignores_bind; [apply ignores_on_adapter|]. intros model.
  apply ignores_bind; [by intros ? []|]. intros this_opts.
  apply ignores_on_router.
Qed.

(** No callback depends on the last defined resource. *)
Lemma ignores_run_job c j : ignores_resource (run_job c j).
Proof.
  destruct j as [name schema opts|re methods routes_], c as [|error]; cbn [run_job];
    try done.
  - unfold resource_connected, _scrubSchema.
    apply ignores_bind.
    { apply ignores_bind; [apply ignores_scrub_key|]. intros ?.
      apply ignores_bind; [apply ignores_scrub_key|]. intros ?.
      apply ignores_scrub_key. }
    intros schema'. apply ignores_bind.
    { apply ignores_modify. by intros ? []. }
    intros _. apply ignores_try_catch; [apply ignores_load_resource|].
    intros e. apply ignores_modify. by intros ? [].
  - apply ignores_on_router.
Qed.

Lemma run_callback_set_resource c name st j :
  run_callback c (set_resource name st) j = set_resource name (run_callback c st j).
Proof.
  unfold run_callback. rewrite ignores_run_job.
  destruct (run_job c j st) as [st' [[]|e]]; cbn [fst snd]; [done | by destruct st'].
Qed.

Lemma settle_set_resource c name st :
  settle c (set_resource name st) = set_resource name (settle c st).
Proof.
  unfold settle.
  replace (pending (set_resource name st)) with (pending st) by by destruct st.
  replace (set_pending [] (set_resource name st))
    with (set_resource name (set_pending [] st)) by by destruct st.
  generalize (set_pending [] st). induction (pending st) as [|j js IH]; intros st0.
  - done.
  - cbn [foldl]. rewrite run_callback_set_resource. apply IH.
Qed.

(** A callback that is queued runs after the callbacks that were already
    waiting, when the connection settles. *)
Lemma settle_then c j st :
  settle c (then_ j st) = run_callback c (settle c st) j.
Proof.
  unfold settle, then_.
  replace (pending (set_pending (pending st ++ [j]) st)) with (pending st ++ [j])%list
    by by destruct st.
  replace (set_pending [] (set_pending (pending st ++ [j]) st))
    with (set_pending [] st) by by destruct st.
  by rewrite foldl_app.
Qed.

End Settling.

(** ** readOnly and noIndex *)

Section Routes.
Context `{!Externals}.

(** Verbs that are not asked for keep their routes, whether or not the
    loop over the verbs runs to its end. *)
Lemma remove_verbs_other re routes_ methods verb a :
  verb ∉ methods →
  routes (forEach (remove_verb re routes_) methods a).1 !! verb = routes a !! verb.
Proof.
  revert a. induction methods as [|m methods IH]; intros a Hnotin; [done|].
  apply not_elem_of_cons in Hnotin as [Hne Hnotin].
  rewrite forEach_cons. unfold remove_verb at 1.
  destruct (routes a !! m) as [paths|] eqn:Hm; [|done].
  rewrite IH by done. cbn [routes with_routes]. by rewrite lookup_insert_ne.
Qed.

(** The router after a callback of [_removeRoutes]. *)
Lemma removeRoutes_router re methods routes_ st :
  router (run_callback Connected st (RemoveRoutesJob re methods routes_))
  = (forEach (remove_verb re routes_) methods (router st)).1.
Proof.
  unfold run_callback, run_job, removeRoutes_connected, on_router.
  destruct (forEach _ _ (router st)) as [a [[]|e]]; by destruct st.
Qed.

(** [readOnly] leaves the GET routes as they are. *)
Lemma readOnly_keeps_get name st :
  routes (router (settle Connected (readOnly name st))) !! "get"
  = routes (router (settle Connected st)) !! "get".
Proof.
  unfold readOnly, _removeRoutes. rewrite settle_then, removeRoutes_router.
  apply remove_verbs_other.
  rewrite !not_elem_of_cons; repeat split; try done; apply not_elem_of_nil.
Qed.

(** On a source of ordinary characters the test of [_removeRoutes] is the
    substring test. *)
Lemma route_matches_ordinary re r :
  ordinary re = true → route_matches re None r = includes re (path r).
Proof. intros Hre. unfold route_matches, RegExp_test. by rewrite Hre. Qed.

(** X15. What [readOnly] does to the POST routes, the first verb of its
    loop, for a pluralized name of ordinary characters: the sweep, in
    which a route that follows a removed one stays. *)
Theorem readOnly_post_routes name st posts :
  let re := "/" ++ pluralize (resource_name name st) in
  ordinary re = true →
  routes (router (settle Connected st)) !! "post" = Some posts →
  routes (router (settle Connected (readOnly name st))) !! "post"
  = Some (sweep (λ r, includes re (path r)) posts).
Proof.
  intros re Hre Hpost. unfold readOnly, _removeRoutes.
  rewrite settle_then, removeRoutes_router.
  rewrite forEach_cons. unfold remove_verb at 1. rewrite Hpost.
  rewrite remove_verbs_other.
  2:{ rewrite !not_elem_of_cons; repeat split; try done; apply not_elem_of_nil. }
  cbn [routes with_routes]. rewrite lookup_insert_eq. fold re.
  rewrite (forEach_splice_ext _ (λ r, includes re (path r)))
    by (intros r; by apply route_matches_ordinary).
  by rewrite forEach_splice_all.
Qed.


(** Whatever the GET routes are, [noIndex] leaves the other verbs alone
    and keeps every GET route with another path. *)
Lemma noIndex_other_verbs name st verb :
  verb ≠ "get" →
  routes (router (settle Connected (noIndex name st))) !! verb
  = routes (router (settle Connected st)) !! verb.
Proof.
  intros Hne. unfold noIndex, _removeRoutes. rewrite settle_then, removeRoutes_router.
  apply remove_verbs_other.
  rewrite not_elem_of_cons; split; [done | apply not_elem_of_nil].
Qed.

End Routes.


(** C2 (the defect). [fortune().resource('user', {name: String})
    .readOnly('user')] over a router that registers two POST routes for
    the resource one after the other, [/users] and [/users/:id]. Once the
    connection is established, [/users/:id] is still registered under
    POST: removing [/users] moved it to the index the loop had just
    visited. *)
Theorem readOnly_leaves_adjacent_route :
  routes (router Memory.users) !! "post"
  = Some [Route "/users" 0; Route "/users/:id" 0]
  ∧ @pluralize (Memory.externals false) "user" = "users"
  ∧ routes (router (settle Connected
                      (readOnly (VString "user")
                         (resource "user" Memory.user_schema VUndefined
                            (Memory.fresh false))))) !! "post"
    = Some [Route "/users/:id" 0].
Proof. repeat split; reflexivity. Qed.

(** ** Defining resources *)

Section Resource.
Context `{!Externals}.

Lemma scrub_key_object key props st :
  scrub_key key (VObject props) st
  = (print_all (if props !! key is Some _ then [reserved_warning key] else []) st,
     Ok (VObject (delete key props))).
Proof.
  unfold scrub_key. rewrite bind_run. cbn [lift hasOwnProperty].
  destruct (props !! key) as [v|] eqn:Hkey.
  - by rewrite bool_decide_true by eauto.
  - rewrite bool_decide_false by (intros [? ?]; congruence).
    cbn. by rewrite delete_id.
Qed.

Lemma print_all_app es1 es2 st :
  print_all es2 (print_all es1 st) = print_all (es1 ++ es2) st.
Proof. unfold print_all. by rewrite foldl_app. Qed.

Lemma scrubSchema_object props st :
  _scrubSchema (VObject props) st
  = (print_all (scrub_warnings props) st, Ok (VObject (scrubbed props))).
Proof.
  unfold _scrubSchema. rewrite bind_run, scrub_key_object.
  rewrite bind_run, scrub_key_object, scrub_key_object.
  rewrite !print_all_app. unfold scrub_warnings, scrubbed.
  rewrite !lookup_delete_ne by done. done.
Qed.

Lemma print_all_fields es st :
  _schema (print_all es st) = _schema st ∧ router (print_all es st) = router st
  ∧ adapter (print_all es st) = adapter st ∧ options (print_all es st) = options st
  ∧ console (print_all es st) = (console st ++ es)%list.
Proof.
  revert st. induction es as [|e es IH]; intros st.
  - cbn. by rewrite app_nil_r.
  - change (print_all (e :: es) st) with (print_all es (print e st)).
    destruct (IH (print e st)) as (-> & -> & -> & -> & ->).
    cbn. by rewrite <- (assoc_L (++)%list).
Qed.

(** The [try] block with its [catch] never throws, and writes to the
    adapter, the router and the console only. *)
Lemma load_caught name schema opts st :
  ∃ st', try_catch (load_resource name schema opts) (load_failed name) st = (st', Ok ())
         ∧ _schema st' = _schema st.
Proof.
  unfold try_catch, load_resource, load_failed.
  rewrite bind_run. unfold on_adapter at 1.
  destruct (adapter_schema name schema opts (adapter st)) as [a1 [schema'|e1]] eqn:H1;
    [|eexists; split; [reflexivity|by destruct st]].
  rewrite bind_run. unfold on_adapter at 1.
  destruct (adapter_define name schema' (adapter (set_adapter a1 st)))
    as [a2 [model|e2]] eqn:H2;
    [|eexists; split; [reflexivity|by destruct st]].
  rewrite bind_run. cbn [gets]. unfold on_router.
  destruct (_route name model _ _) as [r [[]|e3]] eqn:H3;
    eexists; (split; [reflexivity|by destruct st]).
Qed.

(** What the queued callback does with a schema object. *)
Lemma resource_connected_object name props opts st :
  resource_connected name (VObject props) opts st
  = try_catch (load_resource name (VObject (scrubbed props)) opts) (load_failed name)
      (set_schema (<[name := VObject (scrubbed props)]>)
         (print_all (scrub_warnings props) st)).
Proof.
  unfold resource_connected. by rewrite bind_run, scrubSchema_object.
Qed.




(** C5. When the adapter already has a model of [name], a call
    [resource(name, schema, options)] with a schema (a value whose
    [typeof] is ['object']) warns that the resource was already defined,
    stores no schema, queues no callback, so that neither the adapter nor
    the routes are reached, and returns the instance, on which nothing
    but the console and the last defined resource has changed. *)
Theorem resource_already_defined name schema opts st :
  truthy (adapter_model (adapter st) name) = true →
  typeof schema = "object" →
  let st' := resource name schema opts st in
  console st' = (console st ++ [already_defined_warning name])%list
  ∧ _schema st' = _schema st
  ∧ router st' = router st
  ∧ adapter st' = adapter st
  ∧ pending st' = pending st
  ∧ st' = print (already_defined_warning name) (set_resource name st).
Proof.
  intros Hmodel Hschema st'. subst st'. unfold resource. rewrite Hschema.
  change (String.eqb "object" "object") with true. cbn [negb].
  replace (adapter (set_resource name st)) with (adapter st) by by destruct st.
  rewrite Hmodel. by destruct st.
Qed.

Lemma print_all_unhandled es st : unhandled (print_all es st) = unhandled st.
Proof.
  revert st. induction es as [|e es IH]; intros st; [done|].
  change (print_all (e :: es) st) with (print_all es (print e st)).
  rewrite IH. by destruct st.
Qed.

(** The [try] block and its [catch], case by case. *)
Lemma load_outcome name schema opts st :
  try_catch (load_resource name schema opts) (load_failed name) st
  = match adapter_schema name schema opts (adapter st) with
    | (a, Throw e) => (print (load_error_trace name e) (set_adapter a st), Ok ())
    | (a, Ok schema') =>
        match adapter_define name schema' a with
        | (a', Throw e) => (print (load_error_trace name e) (set_adapter a' st), Ok ())
        | (a', Ok model) =>
            match _route name model (options st) (router st) with
            | (r, Throw e) =>
                (print (load_error_trace name e)
                   (set_router (λ _, r) (set_adapter a' st)), Ok ())
            | (r, Ok _) => (set_router (λ _, r) (set_adapter a' st), Ok ())
            end
        end
    end.
Proof.
  unfold try_catch, load_resource, load_failed.
  rewrite bind_run. unfold on_adapter at 1.
  destruct (adapter_schema name schema opts (adapter st)) as [a1 [schema'|e1]]; [|done].
  rewrite bind_run. unfold on_adapter at 1.
  replace (adapter (set_adapter a1 st)) with a1 by by destruct st.
  destruct (adapter_define name schema' a1) as [a2 [model|e2]]; [|by destruct st].
  rewrite bind_run. cbn [gets]. unfold on_router, this_options.
  replace (options (set_adapter a2 (set_adapter a1 st))) with (options st) by by destruct st.
  replace (router (set_adapter a2 (set_adapter a1 st))) with (router st) by by destruct st.
  destruct (_route name model (options st) (router st)) as [r [[]|e3]]; by destruct st.
Qed.

(** C6, as amended. For a name the adapter has no model of and a schema
    object: once connected, whatever [adapter.schema], [adapter.model] and
    [_route] throw is caught and logged with [console.trace] and no
    promise is rejected; the rest of the [try] block is skipped, so that
    no route is set up when [adapter.schema] or [adapter.model] throws and
    no model is defined when [adapter.schema] throws; but the copy of the
    scrubbed schema, stored before the [try] block, stays in the
    registry, and so does what a throwing [_route] had done to the
    router. When the connection fails instead, the rejection handler
    throws the error again: nothing is stored and the promise returned by
    [then] is rejected with that error. *)
Theorem resource_errors name props opts st error :
  truthy (adapter_model (adapter st) name) = false →
  let st0 := settle Connected st in
  let st' := settle Connected (resource name (VObject props) opts st) in
  let schema := VObject (scrubbed props) in
  unhandled st' = unhandled st0
  ∧ _schema st' = <[name := schema]> (_schema st0)
  ∧ (∀ a, adapter_schema name schema opts (adapter st0) = (a, Throw error) →
          adapter st' = a ∧ router st' = router st0
          ∧ last (console st') = Some (load_error_trace name error))
  ∧ (∀ a schema' a',
        adapter_schema name schema opts (adapter st0) = (a, Ok schema') →
        adapter_define name schema' a = (a', Throw error) →
        adapter st' = a' ∧ router st' = router st0
        ∧ last (console st') = Some (load_error_trace name error))
  ∧ (∀ a schema' a' model r,
        adapter_schema name schema opts (adapter st0) = (a, Ok schema') →
        adapter_define name schema' a = (a', Ok model) →
        _route name model (options st0) (router st0) = (r, Throw error) →
        adapter st' = a' ∧ router st' = r
        ∧ last (console st') = Some (load_error_trace name error))
  ∧ settle (ConnectionFailed error) (resource name (VObject props) opts st)
    = reject error (set_resource name (settle (ConnectionFailed error) st)).
Proof.
  intros Hmodel st0 st' schema.
  assert (resource name (VObject props) opts st
          = then_ (ResourceJob name (VObject props) opts) (set_resource name st)) as Hres.
  { unfold resource. cbn [typeof]. change (String.eqb "object" "object") with true.
    cbn [negb]. replace (adapter (set_resource name st)) with (adapter st) by by destruct st.
    by rewrite Hmodel. }
  pose proof (print_all_fields (scrub_warnings props) (set_resource name st0))
    as (Hs & Hr & Ha & Ho & Hc).
  set (st1 := set_schema (<[name := schema]>)
                (print_all (scrub_warnings props) (set_resource name st0))).
  assert (adapter st1 = adapter st0) as Ha1.
  { subst st1. cbn [adapter set_schema]. rewrite Ha. by destruct st0. }
  assert (router st1 = router st0) as Hr1.
  { subst st1. cbn [router set_schema]. rewrite Hr. by destruct st0. }
  assert (options st1 = options st0) as Ho1.
  { subst st1. cbn [options set_schema]. rewrite Ho. by destruct st0. }
  assert (_schema st1 = <[name := schema]> (_schema st0)) as Hs1.
  { subst st1. cbn [_schema set_schema]. rewrite Hs. by destruct st0. }
  assert (unhandled st1 = unhandled st0) as Hu1.
  { subst st1. cbn [unhandled set_schema]. rewrite print_all_unhandled. by destruct st0. }
  assert (st' = (try_catch (load_resource name schema opts) (load_failed name) st1).1
          ∧ (try_catch (load_resource name schema opts) (load_failed name) st1).2 = Ok ())
    as [Hst' Hok].
  { destruct (load_caught name schema opts st1) as (st2 & Hst2 & _).
    rewrite Hst2. split; [|done].
    subst st' st0. rewrite Hres, settle_then, settle_set_resource.
    unfold run_callback, run_job. rewrite resource_connected_object.
    fold schema st1. by rewrite Hst2. }
  rewrite load_outcome, Ha1, Ho1, Hr1 in Hst'.
  split; [|split; [|split; [|split; [|split]]]].
  - rewrite Hst'.
    destruct (adapter_schema name schema opts (adapter st0)) as [a [schema'|e]];
      [|by destruct st1].
    destruct (adapter_define name schema' a) as [a' [model|e]]; [|by destruct st1].
    destruct (_route name model (options st0) (router st0)) as [r [[]|e]];
      by destruct st1.
  - rewrite Hst'.
    destruct (adapter_schema name schema opts (adapter st0)) as [a [schema'|e]];
      [|by destruct st1].
    destruct (adapter_define name schema' a) as [a' [model|e]]; [|by destruct st1].
    destruct (_route name model (options st0) (router st0)) as [r [[]|e]];
      by destruct st1.
  - intros a Hschema. rewrite Hschema in Hst'. rewrite Hst'.
    destruct st1. cbn in *. subst. repeat split. by rewrite last_snoc.
  - intros a schema' a' Hschema Hdefine. rewrite Hschema, Hdefine in Hst'. rewrite Hst'.
    destruct st1. cbn in *. subst. repeat split. by rewrite last_snoc.
  - intros a schema' a' model r Hschema Hdefine Hroute.
    rewrite Hschema, Hdefine, Hroute in Hst'. rewrite Hst'.
    destruct st1. cbn in *. subst. repeat split. by rewrite last_snoc.
  - by rewrite Hres, settle_then, settle_set_resource.
Qed.

End Resource.


Lemma resource_already_defined_witness :
  console (resource "user" Memory.user_schema VUndefined Memory.users)
  = [already_defined_warning "user"]
  ∧ _schema (resource "user" Memory.user_schema VUndefined Memory.users)
    = _schema Memory.users.
Proof.
  pose proof (@resource_already_defined (Memory.externals false) "user"
                Memory.user_schema VUndefined Memory.users eq_refl eq_refl)
    as (Hconsole & Hschema & _).
  split; [exact Hconsole | exact Hschema].
Defined.

Lemma resource_errors_witness :
  router (settle Connected
            (resource "user" Memory.user_schema VUndefined (Memory.fresh true)))
  = router (Memory.fresh true)
  ∧ last (console (settle Connected
                     (resource "user" Memory.user_schema VUndefined (Memory.fresh true))))
    = Some (load_error_trace "user" (Thrown (VString "bad schema"))).
Proof.
  destruct (@resource_errors (Memory.externals true) "user" {["name" := Memory.String_]}
              VUndefined (Memory.fresh true) (Thrown (VString "bad schema")) eq_refl)
    as (_ & _ & Hschema & _).
  destruct (Hschema ∅ eq_refl) as (_ & Hrouter & Hconsole).
  split; [exact Hrouter | exact Hconsole].
Defined.

(** C6, as stated, fails: [adapter.schema] throws, and yet the resource
    is in the schema registry afterwards, where the callback put its copy
    before the [try] block. *)
Lemma failed_resource_stays_registered :
  (@adapter_schema (Memory.externals true) "user" Memory.user_schema VUndefined ∅).2
  = Throw (Thrown (VString "bad schema"))
  ∧ _schema (settle Connected
               (resource "user" Memory.user_schema VUndefined (Memory.fresh true)))
      !! "user"
    = Some Memory.user_schema
  ∧ _schema (settle Connected
               (resource "user" Memory.user_schema VUndefined (Memory.fresh true)))
    ≠ _schema (Memory.fresh true).
Proof.
  split; [reflexivity|]. split; [reflexivity|].
  intros Heq.
  assert (_schema (settle Connected
                     (resource "user" Memory.user_schema VUndefined (Memory.fresh true)))
            !! "user" = None) as Hnone by (by rewrite Heq).
  discriminate Hnone.
Qed.

(** ** Transforms *)

Section Transforms.
Context `{!Externals}.

Lemma split_space_single s : has_space s = false → split_space s = [s].
Proof.
  induction s as [|c rest IH]; [done|]. cbn [has_space split_space].
  destruct (Ascii.eqb c space); [done|]. cbn [orb]. intros Hrest.
  by rewrite IH.
Qed.

Lemma forEach_modify {A} (g : A → fortune → fortune) (xs : list A) (st : fortune) :
  forEach (λ x, modify (g x)) xs st = (foldl (λ st x, g x st) st xs, Ok ()).
Proof.
  revert st. induction xs as [|x xs IH]; intros st; [done|].
  rewrite forEach_cons. cbn [modify foldl]. apply IH.
Qed.

Lemma register_keys_table s fn keys st :
  stage_table s (register_keys s fn keys st)
  = foldl (λ table key, <[key := fn]> table) (stage_table s st) keys.
Proof.
  revert st. induction keys as [|key keys IH]; intros st; [done|].
  cbn [register_keys foldl]. fold (register_keys s fn keys (set_stage s key fn st)).
  rewrite IH. by destruct s, st.
Qed.

Lemma register_keys_frame s fn keys st :
  let st' := register_keys s fn keys st in
  _resource st' = _resource st
  ∧ (∀ s', s' ≠ s → stage_table s' st' = stage_table s' st).
Proof.
  revert st. induction keys as [|key keys IH]; intros st; [done|].
  cbn [register_keys foldl]. fold (register_keys s fn keys (set_stage s key fn st)).
  destruct (IH (set_stage s key fn st)) as [-> Hother]. split.
  - by destruct s, st.
  - intros s' Hne. rewrite Hother by done. by destruct s, s', st.
Qed.

Lemma foldl_insert_lookup (fn : value) keys (table : gmap string value) key :
  foldl (λ table key, <[key := fn]> table) table keys !! key
  = if bool_decide (key ∈ keys) then Some fn else table !! key.
Proof.
  revert table. induction keys as [|k keys IH]; intros table; [done|].
  cbn [foldl]. rewrite IH.
  destruct (decide (key ∈ keys)) as [Hin|Hnotin].
  - rewrite !bool_decide_true; [done| |done]. by right.
  - rewrite (bool_decide_false (key ∈ keys)) by done.
    destruct (decide (k = key)) as [->|Hne].
    + rewrite bool_decide_true by by left. apply lookup_insert_eq.
    + rewrite bool_decide_false by (rewrite not_elem_of_cons; split; done).
      by apply lookup_insert_ne.
Qed.

(** With a string for a name and a function for a hook. *)
Lemma addTransform_string name f s st :
  _addTransform (VString name) (VFunction f) s st
  = (register_keys s (VFunction f) (split_space name) st, Ok ()).
Proof.
  unfold _addTransform. cbn [typeof]. simpl String.eqb. cbv iota.
  rewrite bind_run. cbn [lift split]. apply forEach_modify.
Qed.

(** With a function in the place of the name. *)
Lemma addTransform_function f fn s st :
  _addTransform (VFunction f) fn s st
  = _addTransform (VString (_resource st)) (VFunction f) s st.
Proof. reflexivity. Qed.

(** X22. Without a function to register, nothing happens. *)
Lemma addTransform_no_hook name fn s st :
  typeof name ≠ "function" → typeof fn ≠ "function" →
  _addTransform name fn s st = (st, Ok ()).
Proof.
  intros Hname Hfn. unfold _addTransform.
  destruct (String.eqb (typeof name) "function") eqn:E1;
    [by apply String.eqb_eq in E1|].
  destruct (String.eqb (typeof fn) "function") eqn:E2;
    [by apply String.eqb_eq in E2|].
  done.
Qed.

Lemma addTransform_resource name fn s st :
  _resource (_addTransform name fn s st).1 = _resource st.
Proof.
  unfold _addTransform.
  destruct (String.eqb (typeof name) "function").
  - destruct (String.eqb (typeof name) "function"); [|done].
    rewrite bind_run. cbn [lift split]. rewrite forEach_modify. cbn [fst].
    apply register_keys_frame.
  - destruct (String.eqb (typeof fn) "function"); [|done].
    rewrite bind_run. cbn [lift].
    destruct (split name) as [keys|e]; [|done].
    rewrite forEach_modify. cbn [fst]. apply register_keys_frame.
Qed.

(** A call without the name, [before(fn)] or [after(fn)], is the call
    with the last defined resource for a name. *)
Lemma addTransform_default x s st :
  _addTransform x VUndefined s st = _addTransform (VString (_resource st)) x s st.
Proof. by destruct x. Qed.

(** A key without a space followed by a space is the first token. *)
Lemma split_space_app key rest :
  has_space key = false →
  split_space (key ++ String space rest) = key :: split_space rest.
Proof.
  induction key as [|c key IH]; intros Hkey.
  - reflexivity.
  - cbn [has_space] in Hkey. apply orb_false_iff in Hkey as [Hc Hkey].
    change (split_space (String c (key ++ String space rest))
            = String c key :: split_space rest).
    cbn [split_space]. rewrite Hc. by rewrite IH.
Qed.

(** [split(' ')] gives back the keys that a name lists with one space
    between them. *)
Lemma split_space_concat keys :
  keys ≠ [] → Forall (λ key, has_space key = false) keys →
  split_space (String.concat " " keys) = keys.
Proof.
  induction keys as [|key keys IH]; intros Hne Hkeys; [done|].
  apply Forall_cons in Hkeys as [Hkey Hkeys].
  destruct keys as [|key' keys].
  - cbn [String.concat]. by apply split_space_single.
  - change (String.concat " " (key :: key' :: keys))
      with (key ++ String space (String.concat " " (key' :: keys))).
    rewrite split_space_app by done. by rewrite IH.
Qed.

(** Every name is such a list, of the tokens that [split(' ')] gives. *)
Lemma split_space_spec name :
  String.concat " " (split_space name) = name
  ∧ split_space name ≠ []
  ∧ Forall (λ key, has_space key = false) (split_space name).
Proof.
  induction name as [|c name (IHconcat & IHne & IHkeys)]; [by repeat constructor|].
  cbn [split_space]. destruct (Ascii.eqb c space) eqn:Hc.
  - apply Ascii.eqb_eq in Hc as ->. split; [|split; [done|by constructor]].
    destruct (split_space name) as [|tok toks]; [done|].
    change (String.concat " " ("" :: tok :: toks))
      with (String space (String.concat " " (tok :: toks))).
    by rewrite IHconcat.
  - destruct (split_space name) as [|tok toks]; [done|].
    apply Forall_cons in IHkeys as [Htok Htoks].
    split; [|split; [done|]].
    + destruct toks as [|tok' toks].
      * cbn [String.concat] in *. by subst.
      * change (String.concat " " (String c tok :: tok' :: toks))
          with (String c (String.concat " " (tok :: tok' :: toks))).
        by rewrite IHconcat.
    + constructor; [|done]. cbn [has_space]. by rewrite Hc.
Qed.

(** C10. Let [name] list the keys [keys], none with a space in it, with
    one space between them. [before] and [after] with [name] and a
    function register the function under each of the keys and change no
    other key of the table; a second registration under the same name and
    stage replaces the first, a key holding one hook for each stage. With
    a function in the place of the name the call is the one that names
    the last defined resource: the function is registered under each of
    the keys that this name lists, that is under the name itself when it
    is one word. *)
Theorem hooks_registered_per_token (name : string) (keys : list string) (f g : fn)
    (s : stage) (st : fortune) :
  let hook := match s with Before_ => before | After_ => after end in
  String.concat " " keys = name →
  keys ≠ [] →
  Forall (λ key, has_space key = false) keys →
  (∃ st',
     hook (VString name) (VFunction f) st = (st', Ok ())
     ∧ (∀ key, key ∈ keys → stage_table s st' !! key = Some (VFunction f))
     ∧ (∀ key, key ∉ keys → stage_table s st' !! key = stage_table s st !! key)
     ∧ ∃ st'', hook (VString name) (VFunction g) st' = (st'', Ok ())
               ∧ ∀ key, key ∈ keys → stage_table s st'' !! key = Some (VFunction g))
  ∧ (∀ x, hook (VFunction f) x st = hook (VString (_resource st)) (VFunction f) st)
  ∧ (_resource st = name →
     ∀ x, ∃ st', hook (VFunction f) x st = (st', Ok ())
                 ∧ (∀ key, key ∈ keys → stage_table s st' !! key = Some (VFunction f))
                 ∧ ∀ key, key ∉ keys → stage_table s st' !! key = stage_table s st !! key).
Proof.
  intros hook Hname Hne Hkeys.
  assert (∀ n fn st0, hook n fn st0 = _addTransform n fn s st0) as Hhook
    by (by destruct s).
  assert (split_space name = keys) as Hsplit
    by (rewrite <- Hname; by apply split_space_concat).
  assert (∀ (h : fn) st0,
            _addTransform (VString name) (VFunction h) s st0
            = (register_keys s (VFunction h) keys st0, Ok ())
            ∧ (∀ key, key ∈ keys →
                 stage_table s (register_keys s (VFunction h) keys st0) !! key
                 = Some (VFunction h))
            ∧ ∀ key, key ∉ keys →
                stage_table s (register_keys s (VFunction h) keys st0) !! key
                = stage_table s st0 !! key) as Hregister.
  { intros h st0. rewrite addTransform_string, Hsplit. split; [done|]. split.
    - intros key Hkey. rewrite register_keys_table, foldl_insert_lookup.
      by rewrite bool_decide_true.
    - intros key Hkey. rewrite register_keys_table, foldl_insert_lookup.
      by rewrite bool_decide_false. }
  split; [|split].
  - destruct (Hregister f st) as (Hrun & Hin & Hout).
    exists (register_keys s (VFunction f) keys st). rewrite Hhook.
    split; [done|]. split; [done|]. split; [done|].
    destruct (Hregister g (register_keys s (VFunction f) keys st)) as (Hrun' & Hin' & _).
    eexists. rewrite Hhook. split; [exact Hrun' | exact Hin'].
  - intros x. by rewrite !Hhook.
  - intros Hresource x. destruct (Hregister f st) as (Hrun & Hin & Hout).
    exists (register_keys s (VFunction f) keys st).
    rewrite Hhook, addTransform_function, Hresource. done.
Qed.

(** C9. With three arguments [transform] is [before] and then [after]
    with the same name; with two it is [before(beforeFn)] and then
    [after(afterFn)], and two functions are registered under the tokens
    of the last defined resource, one in each table. *)
Theorem transform_before_after (name b a : value) (fb fa : fn) (st : fortune) :
  transform [name; b; a] st = (before name b ≫= λ _, after name a) st
  ∧ transform [b; a] st = (before b VUndefined ≫= λ _, after a VUndefined) st
  ∧ ∃ st', transform [VFunction fb; VFunction fa] st = (st', Ok ())
           ∧ ∀ key, key ∈ split_space (_resource st) →
                    _before st' !! key = Some (VFunction fb)
                    ∧ _after st' !! key = Some (VFunction fa).
Proof.
  split; [reflexivity|]. split.
  - change (transform [b; a] st)
      with ((before (VString (_resource st)) b
             ≫= λ _, after (VString (_resource st)) a) st).
    rewrite !bind_run. unfold before at 2. rewrite addTransform_default.
    fold (before (VString (_resource st)) b).
    pose proof (addTransform_resource (VString (_resource st)) b Before_ st) as Hres.
    fold (before (VString (_resource st)) b) in Hres.
    destruct (before (VString (_resource st)) b st) as [st1 [[]|e]]; [|done].
    cbn [fst] in Hres. unfold after at 2. rewrite addTransform_default.
    by rewrite Hres.
  - change (transform [VFunction fb; VFunction fa] st)
      with ((before (VString (_resource st)) (VFunction fb)
             ≫= λ _, after (VString (_resource st)) (VFunction fa)) st).
    rewrite bind_run. unfold before, after. rewrite !addTransform_string.
    eexists. split; [done|]. intros key Hkey.
    pose proof (register_keys_frame After_ (VFunction fa) (split_space (_resource st))
                  (register_keys Before_ (VFunction fb) (split_space (_resource st)) st))
      as [_ Hframe].
    split.
    + change (_before ?x) with (stage_table Before_ x).
      rewrite Hframe by done.
      rewrite register_keys_table, foldl_insert_lookup. by rewrite bool_decide_true.
    + change (_after ?x) with (stage_table After_ x).
      rewrite register_keys_table, foldl_insert_lookup. by rewrite bool_decide_true.
Qed.

End Transforms.

Lemma hooks_registered_per_token_witness :
  ∃ st', before (VString "cat dog human") (VFunction Sample.a_hook) Memory.users
         = (st', Ok ())
         ∧ _before st' !! "cat" = Some (VFunction Sample.a_hook)
         ∧ _before st' !! "dog" = Some (VFunction Sample.a_hook)
         ∧ _before st' !! "human" = Some (VFunction Sample.a_hook)
         ∧ _before st' !! "cat dog human" = None.
Proof.
  destruct (@hooks_registered_per_token (Memory.externals false) "cat dog human"
              ["cat"; "dog"; "human"] Sample.a_hook Sample.a_hook Before_ Memory.users
              eq_refl)
    as ((st' & Hrun & Hin & Hout & _) & _).
  - done.
  - by repeat constructor.
  - exists st'. split; [exact Hrun|].
    split; [apply Hin; by left|].
    split; [apply Hin; right; by left|].
    split; [apply Hin; right; right; by left|].
    change (_before st' !! "cat dog human") with (stage_table Before_ st' !! "cat dog human").
    rewrite Hout; [reflexivity|].
    rewrite !not_elem_of_cons. repeat split; try done. apply not_elem_of_nil.
Defined.

(** ** Dispatching the hooks *)

Section HookOrder.
Context `{!Externals}.
Import Dispatch.
Variable invoke : value → value → value → settled.
Variable save : string → value → value.

(** C8. In the trace of a request that persists a resource: when a
    before-hook is registered for the resource it has run before the
    resource is persisted; the after-hook runs after the resource was
    read from the database and before the response; and when an
    after-hook is registered, no response to a persisted resource is
    sent before it has run. *)
Theorem hooks_run_around_persistence (st : fortune) (name : string)
    (resource request : value) :
  let t := handle_write invoke save st name resource request in
  (is_Some (_before st !! name) →
   ∀ i, t !! i = Some (Persist name) → earlier t (RunBefore name) i)
  ∧ (∀ i, t !! i = Some (RunAfter name) →
          earlier t (ReadDatabase name) i ∧ answered_later t i)
  ∧ (is_Some (_after st !! name) →
     ∀ i j ok, t !! i = Some (Persist name) → t !! j = Some (Respond ok) →
               ∃ k, (i < k < j)%nat ∧ t !! k = Some (RunAfter name)).
Proof.
  intros t. subst t. unfold handle_write, dispatch, earlier, answered_later.
  destruct (_before st !! name) as [hb|];
    [destruct (invoke hb resource request) as [r|] | set (r := resource)].
  all: try destruct (_after st !! name) as [ha|];
    try destruct (invoke ha (save name r) request) as [out|].
  all: cbn [List.app].
  all: repeat split.
  all: try (intros [? ?]; done).
  all: intros.
  all: repeat match goal with
         | H : is_Some None |- _ => by destruct H
         | H : (_ :: _) !! ?i = Some _ |- _ =>
             destruct i; cbn in H; try discriminate H
         | H : [] !! ?i = Some _ |- _ => by destruct i
         end.
  all: try (by eexists 0%nat; split; [lia|reflexivity]).
  all: try (by eexists 1%nat; split; [lia|reflexivity]).
  all: try (by eexists 2%nat; split; [lia|reflexivity]).
  all: try (by eexists 3%nat; split; [lia|reflexivity]).
  all: try (by eexists 3%nat, _; split; [lia|reflexivity]).
  all: try (by eexists 4%nat, _; split; [lia|reflexivity]).
Qed.

End HookOrder.

(** ** More on the constructor *)

Section Constructor.
Context `{!Externals}.

Lemma init_options_defaults_present props :
  (props ∪ list_to_map _defaults : gmap string value) ∪ list_to_map _defaults
  = props ∪ list_to_map _defaults.
Proof. by rewrite <- (assoc_L (∪)), (idemp_L (∪)). Qed.

(** X3. Constructing again from the options of an instance gives that very
    instance: the merged options already own every default key. *)
Theorem init_again v st : _init v = Ok st → _init (options st) = Ok st.
Proof.
  intros Hinit.
  assert (∃ props, _init (VObject props) = Ok st) as [props Hobj].
  { destruct v as [| |b|n|s|f|props].
    all: first [ by exists ∅ | by exists props | discriminate Hinit ]. }
  clear Hinit. unfold _init in Hobj.
  change (String.eqb (typeof (VObject props)) "object") with true in Hobj.
  cbv iota in Hobj. rewrite init_options_object in Hobj.
  pose proof (init_options_defaults_present props) as Hmerged.
  set (m := props ∪ list_to_map _defaults) in *.
  injection Hobj as <-.
  change (_init (VObject m) = Ok (Fortune (VObject m)
            (use BodyParser
               (disable "x-powered-by"
                  (if cors_condition (VObject m)
                   then use (allowCrossDomain (get (VObject m) "cors")) express
                   else express)))
            (Adapter (VObject m)) ∅ ∅ ∅ "" [] [] [])).
  unfold _init. change (String.eqb (typeof (VObject m)) "object") with true.
  cbv iota. rewrite init_options_object, Hmerged. done.
Qed.

(** X5. What the constructor leaves behind: no route, the [x-powered-by]
    setting off, the body parser last on the stack, right after the CORS
    handler when there is one, the empty name for the last defined
    resource, no callback waiting and nothing on the console. *)
Theorem init_instance v st :
  _init v = Ok st →
  routes (router st) = ∅
  ∧ settings (router st) !! "x-powered-by" = Some false
  ∧ last (stack (router st)) = Some BodyParser
  ∧ (cors_installed st →
     stack (router st) = [allowCrossDomain (get (options st) "cors"); BodyParser])
  ∧ _resource st = "" ∧ pending st = [] ∧ console st = [].
Proof.
  intros Hinit. pose proof (init_stack _ _ Hinit) as Hstack.
  unfold cors_installed. rewrite Hstack. clear Hstack.
  unfold _init in Hinit.
  destruct (init_options _ _) as [opts|e]; [|done].
  cbn [mbind outcome_mbind outcome_bind] in Hinit. injection Hinit as <-.
  cbn [router options _schema _before _after _resource pending console].
  destruct (cors_condition opts); cbn.
  all: repeat split; try done.
  intros [s Hin]. apply list_elem_of_singleton in Hin. done.
Qed.

(** X6. No setting of the CORS handler is ever falsy: a setting that is
    missing or falsy in the configuration gets its default, so that
    [credentials: false] gives [true]. *)
Theorem allowCrossDomain_settings_truthy cors :
  ∃ s, allowCrossDomain cors = AllowCrossDomain s
       ∧ truthy (headers s) = true ∧ truthy (methods s) = true
       ∧ truthy (origins s) = true ∧ truthy (credentials s) = true
       ∧ (truthy (get cors "credentials") = false → credentials s = VBool true).
Proof.
  eexists. split; [reflexivity|]. cbn [headers methods origins credentials].
  unfold or_else.
  destruct (truthy (get cors "headers")) eqn:E1, (truthy (get cors "methods")) eqn:E2,
    (truthy (get cors "origins")) eqn:E3, (truthy (get cors "credentials")) eqn:E4;
    repeat split; done.
Qed.

End Constructor.

Lemma init_again_witness :
  @_init (Memory.externals false) (options (Memory.fresh false)) = Ok (Memory.fresh false).
Proof.
  apply (@init_again (Memory.externals false) VUndefined (Memory.fresh false)).
  reflexivity.
Defined.

Lemma init_instance_witness :
  stack (router (Memory.fresh false)) = [allowCrossDomain (VBool true); BodyParser].
Proof.
  destruct (@init_instance (Memory.externals false) VUndefined (Memory.fresh false) eq_refl)
    as (_ & _ & _ & Hstack & _).
  apply Hstack. eexists. left.
Defined.

Lemma init_not_typeof_object_witness :
  ∃ st, @_init (Memory.externals false) (VString "nedb") = Ok st
        ∧ options st = VObject (list_to_map _defaults).
Proof.
  apply (@init_not_typeof_object (Memory.externals false) (VString "nedb")). done.
Defined.

Lemma init_cors_installed_witness :
  @cors_installed (Memory.externals false) (Memory.fresh false).
Proof.
  apply (@init_cors_installed (Memory.externals false) VUndefined (Memory.fresh false) eq_refl).
  left. by exists true.
Defined.

(** ** The CORS handler on a request *)

Section CorsHandler.
Import Cors.

(** The four headers and the end of the exchange, once [allowed] is the
    value of [origins]. *)
Lemma handler_answer (s : cors_settings) (req : request) (pre : list effect)
    (joined_headers joined_methods text : string) :
  join (headers s) ", " = Ok joined_headers →
  join (methods s) ", " = Ok joined_methods →
  toString (credentials s) = Ok text →
  (allowed ← gets (λ x, origins (closure x));
   act (Header "Access-Control-Allow-Origin" allowed);;
   joined ← gets (λ x, join (headers (closure x)) ", ") ≫= lift;
   act (Header "Access-Control-Allow-Headers" (VString joined));;
   joined ← gets (λ x, join (methods (closure x)) ", ") ≫= lift;
   act (Header "Access-Control-Allow-Methods" (VString joined));;
   text ← gets (λ x, toString (credentials (closure x))) ≫= lift;
   act (Header "Access-Control-Allow-Credentials" (VString text));;
   if String.eqb (req_method req) "OPTIONS" then act (Send 200) else act Next)
    (Exchange s pre)
  = (Exchange s
       (pre ++ [Header "Access-Control-Allow-Origin" (origins s);
                Header "Access-Control-Allow-Headers" (VString joined_headers);
                Header "Access-Control-Allow-Methods" (VString joined_methods);
                Header "Access-Control-Allow-Credentials" (VString text);
                if String.eqb (req_method req) "OPTIONS" then Send 200 else Next])%list,
     Ok ()).
Proof.
  intros Hh Hm Hc.
  repeat (rewrite bind_run; cbn [gets act modify closure done_ lift];
          rewrite ?Hh, ?Hm, ?Hc).
  destruct (String.eqb (req_method req) "OPTIONS"); unfold act, modify;
    cbn [closure done_]; by rewrite <- !(assoc_L (++)%list).
Qed.

Lemma is_string_true o v : is_string o v = true ↔ v = VString o.
Proof.
  destruct v; cbn; try (split; [done | intros [=]]).
  rewrite String.eqb_eq. split; [by intros -> | by intros [= ->]].
Qed.

Lemma array_indexOf_range o items i :
  array_indexOf o items i = (-1)%Z ∨ (i ≤ array_indexOf o items i)%Z.
Proof.
  revert i. induction items as [|v items IH]; intros i; [by left|].
  cbn [array_indexOf]. destruct (is_string o v); [right; lia|].
  destruct (IH (i + 1)%Z) as [->|Hle]; [by left | right; lia].
Qed.

Lemma array_indexOf_not_first o items :
  head items ≠ Some (VString o) → array_indexOf o items 0 ≠ 0%Z.
Proof.
  destruct items as [|v items]; [done|]. cbn [head array_indexOf]. intros Hhead.
  destruct (is_string o v) eqn:Hv.
  - apply is_string_true in Hv. by subst.
  - destruct (array_indexOf_range o items (0 + 1)) as [->|Hle]; [done | lia].
Qed.

Lemma not_wildcard_array v items : array_items v = Some items → not_wildcard v = true.
Proof. by destruct v. Qed.

Lemma indexOf_array v items o :
  array_items v = Some items → indexOf v o = Ok (VNumber (array_indexOf o items 0)).
Proof. destruct v; try done. unfold indexOf. by intros ->. Qed.

(** X7. A request without an [Origin] header, or with an empty one, goes on
    to the next middleware and gets no CORS header. *)
Theorem handler_without_origin (s : cors_settings) (req : request) :
  truthy (origin_header req) = false →
  serve s req = (Exchange s [Next], Ok ()).
Proof. intros Horigin. unfold serve, handler. by rewrite Horigin. Qed.

(** X8. With [origins] left at ['*'], a request that has an [Origin] gets the
    four headers with the joined settings, and then [send(200)] when its
    method is [OPTIONS] and [next()] otherwise, one or the other. *)
Theorem handler_wildcard (s : cors_settings) (req : request)
    (joined_headers joined_methods text : string) :
  truthy (origin_header req) = true →
  origins s = VString "*" →
  join (headers s) ", " = Ok joined_headers →
  join (methods s) ", " = Ok joined_methods →
  toString (credentials s) = Ok text →
  serve s req
  = (Exchange s
       [Header "Access-Control-Allow-Origin" (VString "*");
        Header "Access-Control-Allow-Headers" (VString joined_headers);
        Header "Access-Control-Allow-Methods" (VString joined_methods);
        Header "Access-Control-Allow-Credentials" (VString text);
        if String.eqb (req_method req) "OPTIONS" then Send 200 else Next],
     Ok ()).
Proof.
  intros Horigin Hwild Hh Hm Hc. unfold serve, handler. rewrite Horigin. cbn [negb].
  rewrite bind_run. cbn [gets closure]. rewrite bind_run, Hwild.
  cbn [not_wildcard is_string String.eqb Ascii.eqb Bool.eqb negb mret M_ret].
  rewrite (handler_answer s req [] joined_headers joined_methods text) by done.
  by rewrite Hwild.
Qed.

(** X9. With an array for [origins], a request whose [Origin] is not the
    first element of the array, be it further down or not in the array
    at all, is answered with its own origin as the allowed one, and from
    then on [origins] is that string. *)
Theorem handler_reflects_origin (s : cors_settings) (req : request) (o : string)
    (items : list value) (joined_headers joined_methods text : string) :
  req_origin req = Some o → o ≠ "" →
  array_items (origins s) = Some items →
  head items ≠ Some (VString o) →
  join (headers s) ", " = Ok joined_headers →
  join (methods s) ", " = Ok joined_methods →
  toString (credentials s) = Ok text →
  serve s req
  = (Exchange
       {| headers := headers s; methods := methods s; origins := VString o;
          credentials := credentials s |}
       [Header "Access-Control-Allow-Origin" (VString o);
        Header "Access-Control-Allow-Headers" (VString joined_headers);
        Header "Access-Control-Allow-Methods" (VString joined_methods);
        Header "Access-Control-Allow-Credentials" (VString text);
        if String.eqb (req_method req) "OPTIONS" then Send 200 else Next],
     Ok ()).
Proof.
  intros Horigin Ho Hitems Hhead Hh Hm Hc. unfold serve, handler, origin_header.
  rewrite Horigin. cbn [truthy to_string].
  destruct (String.eqb o "") eqn:Hempty; [by apply String.eqb_eq in Hempty|].
  cbn [negb]. rewrite bind_run. cbn [gets closure]. rewrite bind_run.
  rewrite (not_wildcard_array _ _ Hitems), bind_run. cbn [lift].
  rewrite (indexOf_array _ _ o Hitems). cbn [truthy].
  pose proof (array_indexOf_not_first o items Hhead) as Hindex.
  destruct (Z.eqb_spec (array_indexOf o items 0) 0) as [|_]; [done|]. cbn [negb].
  unfold set_origins, modify. cbn [closure done_].
  by rewrite (handler_answer _ req [] joined_headers joined_methods text).
Qed.

(** X10. With an array for [origins], a request from the first origin of the
    array makes the handler call [next()] at once and then go on all the
    same: the allowed origin it sends is the whole array, and a request
    that is not [OPTIONS] gets [next()] a second time. *)
Theorem handler_first_origin (s : cors_settings) (req : request) (o : string)
    (rest : list value) (joined_headers joined_methods text : string) :
  req_origin req = Some o → o ≠ "" →
  array_items (origins s) = Some (VString o :: rest) →
  join (headers s) ", " = Ok joined_headers →
  join (methods s) ", " = Ok joined_methods →
  toString (credentials s) = Ok text →
  serve s req
  = (Exchange s
       [Next;
        Header "Access-Control-Allow-Origin" (origins s);
        Header "Access-Control-Allow-Headers" (VString joined_headers);
        Header "Access-Control-Allow-Methods" (VString joined_methods);
        Header "Access-Control-Allow-Credentials" (VString text);
        if String.eqb (req_method req) "OPTIONS" then Send 200 else Next],
     Ok ()).
Proof.
  intros Horigin Ho Hitems Hh Hm Hc. unfold serve, handler, origin_header.
  rewrite Horigin. cbn [truthy to_string].
  destruct (String.eqb o "") eqn:Hempty; [by apply String.eqb_eq in Hempty|].
  cbn [negb]. rewrite bind_run. cbn [gets closure]. rewrite bind_run.
  rewrite (not_wildcard_array _ _ Hitems), bind_run. cbn [lift].
  rewrite (indexOf_array _ _ o Hitems). cbn [array_indexOf is_string].
  rewrite String.eqb_refl. cbn [truthy Z.eqb negb].
  unfold act at 1, modify. cbn [closure done_ List.app].
  by rewrite (handler_answer s req [Next] joined_headers joined_methods text).
Qed.

(** X11. When [headers] is not an array, so that it has no [join], the handler
    throws after the first header: the request gets neither a response
    nor [next()]. *)
Theorem handler_headers_not_array (s : cors_settings) (req : request) :
  truthy (origin_header req) = true →
  origins s = VString "*" →
  array_items (headers s) = None →
  serve s req
  = (Exchange s [Header "Access-Control-Allow-Origin" (VString "*")],
     Throw (TypeError "Object has no method 'join'")).
Proof.
  intros Horigin Hwild Hitems. unfold serve, handler. rewrite Horigin. cbn [negb].
  rewrite bind_run. cbn [gets closure]. rewrite bind_run, Hwild.
  cbn [not_wildcard is_string String.eqb Ascii.eqb Bool.eqb negb mret M_ret].
  repeat (rewrite bind_run; cbn [gets act modify closure done_ lift]).
  unfold join. by rewrite Hitems, Hwild.
Qed.

End CorsHandler.

Lemma handler_without_origin_witness :
  Cors.serve (CorsSettings VNull VNull (VString "*") (VBool true))
    (Cors.Request "GET" (Some ""))
  = (Cors.Exchange (CorsSettings VNull VNull (VString "*") (VBool true)) [Cors.Next], Ok ()).
Proof. apply handler_without_origin. reflexivity. Defined.

Example default_cors_is_default b :
  allowCrossDomain (VBool b) = AllowCrossDomain Sample.default_cors.
Proof. reflexivity. Qed.

Lemma handler_wildcard_witness :
  Cors.serve Sample.default_cors (Sample.get_from "http://a.example")
  = (Cors.Exchange Sample.default_cors
       [Cors.Header "Access-Control-Allow-Origin" (VString "*");
        Cors.Header "Access-Control-Allow-Headers"
          (VString "Accept, Content-Type, Authorization, X-Requested-With");
        Cors.Header "Access-Control-Allow-Methods" (VString "GET, PUT, POST, PATCH, DELETE");
        Cors.Header "Access-Control-Allow-Credentials" (VString "true");
        Cors.Next],
     Ok ()).
Proof.
  apply (handler_wildcard Sample.default_cors (Sample.get_from "http://a.example"));
    reflexivity.
Defined.

Lemma handler_reflects_origin_witness :
  origins (Cors.closure
             (Cors.serve Sample.listed_cors (Sample.get_from "http://evil.example")).1)
  = VString "http://evil.example"
  ∧ head (Cors.done_
            (Cors.serve Sample.listed_cors (Sample.get_from "http://evil.example")).1)
    = Some (Cors.Header "Access-Control-Allow-Origin" (VString "http://evil.example")).
Proof.
  rewrite (handler_reflects_origin Sample.listed_cors
             (Sample.get_from "http://evil.example") "http://evil.example"
             [VString "http://a.example"; VString "http://b.example"]
             "Accept, Content-Type, Authorization, X-Requested-With"
             "GET, PUT, POST, PATCH, DELETE" "true"); try reflexivity; try done.
Defined.

Lemma handler_first_origin_witness :
  Cors.done_ (Cors.serve Sample.listed_cors (Sample.get_from "http://a.example")).1
  = [Cors.Next;
     Cors.Header "Access-Control-Allow-Origin"
       (array_of ["http://a.example"; "http://b.example"]);
     Cors.Header "Access-Control-Allow-Headers"
       (VString "Accept, Content-Type, Authorization, X-Requested-With");
     Cors.Header "Access-Control-Allow-Methods" (VString "GET, PUT, POST, PATCH, DELETE");
     Cors.Header "Access-Control-Allow-Credentials" (VString "true");
     Cors.Next].
Proof.
  rewrite (handler_first_origin Sample.listed_cors
             (Sample.get_from "http://a.example") "http://a.example"
             [VString "http://b.example"]
             "Accept, Content-Type, Authorization, X-Requested-With"
             "GET, PUT, POST, PATCH, DELETE" "true"); try reflexivity; try done.
Defined.

Lemma handler_headers_not_array_witness :
  (Cors.serve Sample.string_headers_cors (Sample.get_from "http://a.example")).2
  = Throw (TypeError "Object has no method 'join'").
Proof.
  rewrite (handler_headers_not_array Sample.string_headers_cors
             (Sample.get_from "http://a.example")); reflexivity.
Defined.

(** ** More on resources and their routes *)

Section Chaining.
Context `{!Externals}.

Lemma resource_last name schema opts st :
  _resource (resource name schema opts st) = name.
Proof.
  unfold resource. destruct (negb _); [by destruct st|].
  destruct (truthy _); by destruct st.
Qed.

(** X12. After [resource(name, ...)], whatever it did with the schema, the
    calls that leave the name out act on [name]: [readOnly()],
    [noIndex()], and [before(fn)] or [after(fn)]. *)
Theorem chained_calls_use_resource name schema opts st (x fn : value) (f : JS.fn)
    (s : stage) :
  typeof x ≠ "string" →
  let st' := resource name schema opts st in
  readOnly x st' = readOnly (VString name) st'
  ∧ noIndex x st' = noIndex (VString name) st'
  ∧ _addTransform (VFunction f) fn s st' = _addTransform (VString name) (VFunction f) s st'.
Proof.
  intros Hx st'.
  assert (resource_name x st' = name) as Hname.
  { subst st'. destruct x; try done; apply resource_last. }
  split; [|split].
  - unfold readOnly. by rewrite Hname.
  - unfold noIndex. by rewrite Hname.
  - rewrite addTransform_function. subst st'. by rewrite resource_last.
Qed.

(** The registry after the callback of [resource] for a schema object. *)
Lemma run_resource_schema name props opts st :
  _schema (run_callback Connected st (ResourceJob name (VObject props) opts))
  = <[name := VObject (scrubbed props)]> (_schema st).
Proof.
  unfold run_callback, run_job. rewrite resource_connected_object.
  destruct (load_caught name (VObject (scrubbed props)) opts
              (set_schema (<[name := VObject (scrubbed props)]>)
                 (print_all (scrub_warnings props) st))) as (st' & -> & ->).
  cbn [_schema set_schema].
  by destruct (print_all_fields (scrub_warnings props) st) as (-> & _).
Qed.

Lemma resource_queues name schema opts st :
  String.eqb (typeof schema) "object" = true →
  truthy (adapter_model (adapter st) name) = false →
  resource name schema opts st
  = then_ (ResourceJob name schema opts) (set_resource name st).
Proof.
  intros Hty Hmodel. unfold resource. rewrite Hty. cbn [negb].
  replace (adapter (set_resource name st)) with (adapter st) by by destruct st.
  by rewrite Hmodel.
Qed.

(** X13. [null] passes for a schema, its [typeof] being ['object']: the
    callback is queued, throws a [TypeError] at the first
    [schema.hasOwnProperty], outside the [try] block, and so stores
    nothing, reaches neither the adapter nor the router, and leaves a
    rejected promise that nothing handles. *)
Theorem resource_null_schema name opts st :
  truthy (adapter_model (adapter st) name) = false →
  settle Connected (resource name VNull opts st)
  = reject (TypeError "Cannot read property 'hasOwnProperty' of null")
      (set_resource name (settle Connected st)).
Proof.
  intros Hmodel. rewrite resource_queues by done.
  by rewrite settle_then, settle_set_resource.
Qed.

(** X14. The test for an existing model looks at the adapter as it is when
    [resource] is called: two definitions of one name made before the
    connection are both queued, without a warning, and the schema of the
    second is the one that stays in the registry. *)
Theorem resource_twice_before_connection name props1 opts1 props2 opts2 st :
  truthy (adapter_model (adapter st) name) = false →
  let st' := resource name (VObject props2) opts2
               (resource name (VObject props1) opts1 st) in
  pending st'
  = (pending st ++ [ResourceJob name (VObject props1) opts1;
                    ResourceJob name (VObject props2) opts2])%list
  ∧ console st' = console st
  ∧ _schema (settle Connected st') !! name = Some (VObject (scrubbed props2)).
Proof.
  intros Hmodel st'.
  assert (st' = then_ (ResourceJob name (VObject props2) opts2)
                  (set_resource name
                     (then_ (ResourceJob name (VObject props1) opts1)
                        (set_resource name st)))) as ->.
  { subst st'. rewrite (resource_queues name (VObject props1)) by done.
    rewrite resource_queues; [done..|]. by destruct st. }
  split; [|split].
  - destruct st. cbn. by rewrite <- (assoc_L (++)%list).
  - by destruct st.
  - rewrite settle_then, run_resource_schema. apply lookup_insert_eq.
Qed.

End Chaining.

Lemma chained_calls_use_resource_witness :
  readOnly VUndefined (resource "user" Memory.user_schema VUndefined (Memory.fresh false))
  = readOnly (VString "user")
      (resource "user" Memory.user_schema VUndefined (Memory.fresh false)).
Proof.
  apply (@chained_calls_use_resource (Memory.externals false) "user" Memory.user_schema
           VUndefined (Memory.fresh false) VUndefined VUndefined Sample.a_hook Before_).
  done.
Defined.

Lemma resource_null_schema_witness :
  _schema (settle Connected (resource "user" VNull VUndefined (Memory.fresh false))) = ∅
  ∧ unhandled (settle Connected (resource "user" VNull VUndefined (Memory.fresh false)))
    = [TypeError "Cannot read property 'hasOwnProperty' of null"].
Proof.
  rewrite (@resource_null_schema (Memory.externals false) "user" VUndefined
             (Memory.fresh false) eq_refl).
  split; reflexivity.
Defined.

Lemma resource_twice_before_connection_witness :
  length (pending (resource "user" (VObject ∅) VUndefined
                     (resource "user" Memory.user_schema VUndefined (Memory.fresh false))))
  = 2.
Proof.
  destruct (@resource_twice_before_connection (Memory.externals false) "user"
              {["name" := Memory.String_]} VUndefined ∅ VUndefined (Memory.fresh false)
              eq_refl) as (Hpending & _).
  unfold Memory.user_schema. rewrite Hpending. reflexivity.
Defined.

Section MoreRoutes.
Context `{!Externals}.


(** The loop over the verbs never loses a route that does not match. *)
Lemma remove_verbs_keep re routes_ methods verb a paths :
  routes a !! verb = Some paths →
  ∃ paths',
    routes (forEach (remove_verb re routes_) methods a).1 !! verb = Some paths'
    ∧ filter (λ r, ¬ route_matches re routes_ r) paths'
      = filter (λ r, ¬ route_matches re routes_ r) paths.
Proof.
  revert a paths. induction methods as [|m methods IH]; intros a paths Hverb.
  { by exists paths. }
  rewrite forEach_cons. unfold remove_verb at 1.
  destruct (routes a !! m) as [pm|] eqn:Hm; [|by exists paths].
  destruct (decide (m = verb)) as [->|Hne].
  - rewrite Hverb in Hm. injection Hm as ->.
    destruct (IH (with_routes
                    (<[verb := forEach_splice (route_matches re routes_)
                                 (length pm) 0 pm]> (routes a)) a)
                (forEach_splice (route_matches re routes_) (length pm) 0 pm))
      as (paths' & Hlookup & Hfilter).
    { cbn [routes with_routes]. apply lookup_insert_eq. }
    exists paths'. split; [done|].
    by rewrite Hfilter, forEach_splice_all, sweep_keeps_others.
  - apply IH. cbn [routes with_routes]. by rewrite lookup_insert_ne.
Qed.

(** With every verb registered and no two matching routes in a row, the
    loop ends normally and leaves, for each of its verbs, the routes that
    do not match. *)
Lemma remove_verbs_all re routes_ methods a :
  NoDup methods →
  (∀ verb, verb ∈ methods →
     ∃ paths, routes a !! verb = Some paths
              ∧ adjacent_matches (route_matches re routes_) paths = false) →
  ∃ a', forEach (remove_verb re routes_) methods a = (a', Ok ())
        ∧ ∀ verb paths, verb ∈ methods → routes a !! verb = Some paths →
            routes a' !! verb = Some (filter (λ r, ¬ route_matches re routes_ r) paths).
Proof.
  revert a. induction methods as [|m methods IH]; intros a Hnodup Hall.
  { exists a. split; [done|]. intros verb paths Hin. by apply elem_of_nil in Hin. }
  apply NoDup_cons in Hnodup as [Hm Hnodup].
  destruct (Hall m) as (pm & Hpm & Hadj); [by left|].
  rewrite forEach_cons. unfold remove_verb at 1. rewrite Hpm.
  rewrite forEach_splice_all, sweep_filter by done.
  set (a1 := with_routes (<[m := filter (λ r, ¬ route_matches re routes_ r) pm]> (routes a)) a).
  destruct (IH a1 Hnodup) as (a' & Hrun & Hroutes).
  { intros verb Hin. destruct (Hall verb) as (paths & Hpaths & Hadj'); [by right|].
    exists paths. split; [|done]. subst a1. cbn [routes with_routes].
    rewrite lookup_insert_ne; [done|]. by intros ->. }
  exists a'. split; [done|]. intros verb paths Hin Hpaths.
  apply elem_of_cons in Hin as [->|Hin].
  - pose proof (remove_verbs_other re routes_ methods m a1 Hm) as Hother.
    rewrite Hrun in Hother. cbn [fst] in Hother. rewrite Hother.
    subst a1. cbn [routes with_routes]. rewrite lookup_insert_eq.
    rewrite Hpm in Hpaths. by injection Hpaths as ->.
  - apply Hroutes; [done|]. subst a1. cbn [routes with_routes].
    rewrite lookup_insert_ne; [done|]. by intros ->.
Qed.

Lemma filter_index_not_matches re index (l : list route) :
  filter (λ r, path r ≠ index) l = filter (λ r, ¬ route_matches re (Some [index]) r) l.
Proof.
  apply list_filter_iff. intros r. unfold route_matches.
  by rewrite bool_decide_spec, list_elem_of_singleton.
Qed.


Lemma adjacent_matches_ext (t1 t2 : route → bool) paths :
  (∀ r, t1 r = t2 r) → adjacent_matches t1 paths = adjacent_matches t2 paths.
Proof.
  intros Hext. induction paths as [|r rest IH]; [done|].
  destruct rest as [|r' rest']; [done|].
  change (t1 r && t1 r' || adjacent_matches t1 (r' :: rest')
          = t2 r && t2 r' || adjacent_matches t2 (r' :: rest')).
  by rewrite IH, !Hext.
Qed.

(** X16. For a pluralized name of ordinary characters, [readOnly] never
    removes a route whose path does not have ['/'] and the pluralized
    name in it, under any verb, and keeps those routes in their order. *)
Theorem readOnly_keeps_other_routes name st verb paths :
  let re := "/" ++ pluralize (resource_name name st) in
  let other r := ¬ includes re (path r) in
  ordinary re = true →
  routes (router (settle Connected st)) !! verb = Some paths →
  ∃ paths',
    routes (router (settle Connected (readOnly name st))) !! verb = Some paths'
    ∧ filter other paths' = filter other paths.
Proof.
  intros re other Hre Hverb. unfold readOnly, _removeRoutes.
  rewrite settle_then, removeRoutes_router.
  destruct (remove_verbs_keep re None ["post"; "put"; "patch"; "delete"] verb _ paths Hverb)
    as (paths' & Hlookup & Hfilter).
  exists paths'. split; [done|].
  rewrite !(list_filter_iff other (λ r, ¬ route_matches re None r)); [done|..].
  all: intros r; unfold other; by rewrite route_matches_ordinary.
Qed.

(** X17. For a pluralized name of ordinary characters: when each of POST,
    PUT, PATCH and DELETE has its array of routes and no two routes in a
    row match there, [readOnly] removes every matching route under the
    four verbs, and no promise is rejected. *)
Theorem readOnly_removes_all name st :
  let re := "/" ++ pluralize (resource_name name st) in
  let matches r := includes re (path r) in
  ordinary re = true →
  (∀ verb, verb ∈ ["post"; "put"; "patch"; "delete"] →
     ∃ paths, routes (router (settle Connected st)) !! verb = Some paths
              ∧ adjacent_matches matches paths = false) →
  unhandled (settle Connected (readOnly name st)) = unhandled (settle Connected st)
  ∧ ∀ verb paths, verb ∈ ["post"; "put"; "patch"; "delete"] →
      routes (router (settle Connected st)) !! verb = Some paths →
      routes (router (settle Connected (readOnly name st))) !! verb
      = Some (filter (λ r, ¬ matches r) paths).
Proof.
  intros re matches Hre Hall. unfold readOnly, _removeRoutes. rewrite settle_then.
  assert (∀ r, route_matches re None r = matches r) as Hmatch
    by (intros r; by apply route_matches_ordinary).
  destruct (remove_verbs_all re None
              ["post"; "put"; "patch"; "delete"] (router (settle Connected st)))
    as (a' & Hrun & Hroutes).
  { repeat (apply NoDup_cons; split;
            [rewrite ?not_elem_of_cons; repeat split; try done; apply not_elem_of_nil|]).
    apply NoDup_nil_2. }
  { intros verb Hin. destruct (Hall verb Hin) as (paths & Hpaths & Hadj).
    exists paths. split; [done|].
    by rewrite (adjacent_matches_ext _ matches). }
  unfold run_callback, run_job, removeRoutes_connected, on_router. fold re. rewrite Hrun.
  split; [by destruct (settle Connected st)|].
  intros verb paths Hin Hpaths.
  replace (router (set_router (λ _, a') (settle Connected st))) with a'
    by by destruct (settle Connected st).
  rewrite (Hroutes verb paths Hin Hpaths). f_equal.
  apply list_filter_iff. intros r. by rewrite Hmatch.
Qed.


(** X20. Whatever the GET routes are, [noIndex] keeps every GET route with
    another path than the index, in order, and touches no other verb. *)
Theorem noIndex_keeps_other_routes name st gets :
  let index := index_path (resource_name name st) st in
  routes (router (settle Connected st)) !! "get" = Some gets →
  (∃ gets',
     routes (router (settle Connected (noIndex name st))) !! "get" = Some gets'
     ∧ filter (λ r, path r ≠ index) gets' = filter (λ r, path r ≠ index) gets)
  ∧ ∀ verb, verb ≠ "get" →
      routes (router (settle Connected (noIndex name st))) !! verb
      = routes (router (settle Connected st)) !! verb.
Proof.
  intros index Hget. split.
  - unfold noIndex, _removeRoutes. rewrite settle_then, removeRoutes_router.
    destruct (remove_verbs_keep ("/" ++ pluralize (resource_name name st))
                (Some [index]) ["get"] "get" _ gets Hget) as (gets' & Hlookup & Hfilter).
    exists gets'. split; [done|].
    by rewrite !(filter_index_not_matches ("/" ++ pluralize (resource_name name st))).
  - intros verb Hne. unfold noIndex, _removeRoutes.
    rewrite settle_then, removeRoutes_router.
    apply remove_verbs_other.
    rewrite not_elem_of_cons; split; [done | apply not_elem_of_nil].
Qed.

End MoreRoutes.


Lemma readOnly_keeps_other_routes_witness :
  ∃ paths',
    routes (router (settle Connected (readOnly (VString "account") Memory.users))) !! "post"
    = Some paths'
    ∧ filter (λ r, ¬ includes "/accounts" (path r)) paths'
      = filter (λ r, ¬ includes "/accounts" (path r))
          [Route "/users" 0; Route "/users/:id" 0].
Proof.
  apply (@readOnly_keeps_other_routes (Memory.externals false) (VString "account")
           Memory.users "post" [Route "/users" 0; Route "/users/:id" 0]);
    reflexivity.
Defined.

Lemma readOnly_removes_all_witness :
  routes (router (settle Connected (readOnly (VString "user") Sample.single))) !! "put"
  = Some (filter (λ r, ¬ includes "/users" (path r)) [Route "/users/:id" 2]).
Proof.
  destruct (@readOnly_removes_all (Memory.externals false) (VString "user") Sample.single)
    as [_ Hroutes].
  - reflexivity.
  - intros verb Hin.
    repeat (apply elem_of_cons in Hin as [->|Hin]); [| | | |by apply elem_of_nil in Hin].
    all: eexists; split; reflexivity.
  - apply Hroutes; [|reflexivity]. right. left.
Defined.

Lemma readOnly_post_routes_witness :
  routes (router (settle Connected (readOnly (VString "user") Memory.users))) !! "post"
  = Some (sweep (λ r, includes "/users" (path r))
            [Route "/users" 0; Route "/users/:id" 0]).
Proof.
  apply (@readOnly_post_routes (Memory.externals false) (VString "user") Memory.users
           [Route "/users" 0; Route "/users/:id" 0]); reflexivity.
Defined.

Lemma noIndex_keeps_other_routes_witness :
  routes (router (settle Connected (noIndex (VString "user") Memory.users))) !! "post"
  = routes (router Memory.users) !! "post".
Proof.
  destruct (@noIndex_keeps_other_routes (Memory.externals false) (VString "user")
              Memory.users [Route "/users" 0; Route "/users/:id" 0] eq_refl)
    as [_ Hother].
  by apply Hother.
Defined.

(** ** More on transforms *)

Section MoreTransforms.
Context `{!Externals}.

(** X21. [before] and [after] with a function to register and a name that is
    neither a string nor a function throw a [TypeError] and register
    nothing. *)
Theorem addTransform_bad_name name (f : fn) s st :
  typeof name ≠ "string" → typeof name ≠ "function" →
  ∃ message, _addTransform name (VFunction f) s st = (st, Throw (TypeError message)).
Proof.
  intros Hstring Hfunction. destruct name; try done; by eexists.
Qed.

(** X23. [before] and [after] write to their own table and to nothing else:
    the other table, the registry, the router, the adapter, the options,
    the last defined resource, the console and the waiting callbacks are
    as before, whether the call throws or not. *)
Theorem addTransform_frame name fn s st :
  let st' := (_addTransform name fn s st).1 in
  (∀ s', s' ≠ s → stage_table s' st' = stage_table s' st)
  ∧ _schema st' = _schema st ∧ router st' = router st ∧ adapter st' = adapter st
  ∧ options st' = options st ∧ _resource st' = _resource st
  ∧ console st' = console st ∧ pending st' = pending st
  ∧ unhandled st' = unhandled st.
Proof.
  assert (∀ keys f0 st0,
            let st' := register_keys s f0 keys st0 in
            (∀ s', s' ≠ s → stage_table s' st' = stage_table s' st0)
            ∧ _schema st' = _schema st0 ∧ router st' = router st0
            ∧ adapter st' = adapter st0 ∧ options st' = options st0
            ∧ _resource st' = _resource st0 ∧ console st' = console st0
            ∧ pending st' = pending st0 ∧ unhandled st' = unhandled st0) as Hkeys.
  { induction keys as [|key keys IH]; intros f0 st0; [done|].
    cbn [register_keys foldl]. fold (register_keys s f0 keys (set_stage s key f0 st0)).
    destruct (IH f0 (set_stage s key f0 st0))
      as (Hother & -> & -> & -> & -> & -> & -> & -> & ->).
    split; [|by destruct s, st0].
    intros s' Hne. rewrite Hother by done. by destruct s, s', st0. }
  unfold _addTransform.
  destruct (String.eqb (typeof name) "function").
  - destruct (String.eqb (typeof name) "function"); [|done].
    rewrite bind_run. cbn [lift split]. rewrite forEach_modify. apply Hkeys.
  - destruct (String.eqb (typeof fn) "function"); [|done].
    rewrite bind_run. cbn [lift].
    destruct (split name) as [keys|e]; [|done].
    rewrite forEach_modify. apply Hkeys.
Qed.

(** X24. [transform] looks at its first three arguments only, and with a
    single argument registers it as the before-hook of the last defined
    resource and no after-hook. *)
Theorem transform_arity (name b a : value) (more : list value) st :
  transform (name :: b :: a :: more) st = transform [name; b; a] st
  ∧ transform [b] st = before b VUndefined st
  ∧ transform [] st = (st, Ok ()).
Proof.
  split; [reflexivity|]. split; [|reflexivity].
  change (transform [b] st)
    with ((before (VString (_resource st)) b
           ≫= λ _, after (VString (_resource st)) VUndefined) st).
  rewrite bind_run. unfold before at 2. rewrite addTransform_default.
  fold (before (VString (_resource st)) b).
  by destruct (before (VString (_resource st)) b st) as [st1 [[]|e]].
Qed.

End MoreTransforms.

Lemma addTransform_bad_name_witness :
  ∃ message,
    before (VNumber 7) (VFunction Sample.a_hook) Memory.users
    = (Memory.users, Throw (TypeError message)).
Proof.
  apply (@addTransform_bad_name (Memory.externals false) (VNumber 7) Sample.a_hook
           Before_ Memory.users); done.
Defined.

Lemma addTransform_no_hook_witness :
  before (VString "user") (VString "not a function") Memory.users = (Memory.users, Ok ()).
Proof.
  apply (@addTransform_no_hook (Memory.externals false) (VString "user")
           (VString "not a function") Before_ Memory.users); done.
Defined.
